(** * Raymond agent: long-term memory and the per-turn state graph

    A shallow embedding of [agent/memory.py] (class [LongTermMemory]) and of
    [agent/graph.py] (the nodes [retrieve_memories], [generate_response],
    [extract_memory] and the graph that chains them), with the properties of
    the orchestration core stated and proved over it.

    Conventions.
    - A Python [str] is a list of Unicode code points ([list N]), so that
      [len] counts characters, as Python does, also for Chinese text.
    - Python exceptions are values of [exn]; a call that may raise returns a
      [result].  Code that mutates the disk or a module global runs in the
      state-and-exception monad [M] over [World].
    - What the repository calls but does not define (the embedding model, the
      chat model, FAISS, [json.loads], the configuration read from the
      process environment) is gathered in the record [Env]. *)

From Stdlib Require Import ZArith NArith QArith List String Ascii Bool Lia.
From stdpp Require Import gmap list sorting.

Close Scope Q_scope.
#[local] Set Warnings "-register-all".
Local Open Scope nat_scope.

(** ** Python strings *)

Abbreviation str := (list N).

Module PyStr.

(** Decoding of a UTF-8 source literal into its code points. *)
Definition cont (b : N) : N := N.land b 63.

Fixpoint utf8_decode (bs : list N) : str :=
  match bs with
  | [] => []
  | b :: r =>
      if (b <? 128)%N then b :: utf8_decode r
      else if (b <? 224)%N then
        match r with
        | b1 :: r' => (N.land b 31 * 64 + cont b1)%N :: utf8_decode r'
        | _ => []
        end
      else if (b <? 240)%N then
        match r with
        | b1 :: b2 :: r' =>
            (N.land b 15 * 4096 + cont b1 * 64 + cont b2)%N :: utf8_decode r'
        | _ => []
        end
      else
        match r with
        | b1 :: b2 :: b3 :: r' =>
            (N.land b 7 * 262144 + cont b1 * 4096 + cont b2 * 64 + cont b3)%N
              :: utf8_decode r'
        | _ => []
        end
  end.

Definition lit (s : string) : str :=
  utf8_decode (map N_of_ascii (list_ascii_of_string s)).

Definition nl : N := 10%N.
Definition backtick : N := 96%N.
Definition fence : str := [backtick; backtick; backtick].

(** [str.isspace] on one code point: the characters [str.strip()] removes. *)
Definition isspace (c : N) : bool :=
  ((9 <=? c) && (c <=? 13) || (28 <=? c) && (c <=? 32)
   || (c =? 133) || (c =? 160) || (c =? 5760)
   || (8192 <=? c) && (c <=? 8202)
   || (c =? 8232) || (c =? 8233) || (c =? 8239) || (c =? 8287)
   || (c =? 12288))%N.

Fixpoint lstrip (s : str) : str :=
  match s with
  | c :: r => if isspace c then lstrip r else s
  | [] => []
  end.

Definition rstrip (s : str) : str := rev (lstrip (rev s)).

(** [s.strip()] *)
Definition strip (s : str) : str := rstrip (lstrip s).

(** [s.startswith(p)] *)
Fixpoint startswith (p s : str) : bool :=
  match p, s with
  | [], _ => true
  | a :: p', b :: s' => (a =? b)%N && startswith p' s'
  | _ :: _, [] => false
  end.

(** [s.split(sep, 1)[-1]]: what follows the first occurrence of [sep], the
    whole of [s] when [sep] does not occur. *)
Fixpoint find_after (sep s : str) : option str :=
  if startswith sep s then Some (skipn (length sep) s)
  else match s with
       | [] => None
       | _ :: r => find_after sep r
       end.

Definition split1_last (sep s : str) : str :=
  match find_after sep s with
  | Some r => r
  | None => s
  end.

(** [s.rsplit(sep, 1)[0]]: what precedes the last occurrence of [sep], the
    whole of [s] when [sep] does not occur. *)
Fixpoint rfind_before (sep s : str) : option str :=
  match s with
  | [] => None
  | c :: r =>
      match rfind_before sep r with
      | Some h => Some (c :: h)
      | None => if startswith sep s then Some [] else None
      end
  end.

Definition rsplit1_first (sep s : str) : str :=
  match rfind_before sep s with
  | Some h => h
  | None => s
  end.

(** ["\n".join(l)] *)
Fixpoint join (sep : str) (l : list str) : str :=
  match l with
  | [] => []
  | [x] => x
  | x :: r => x ++ sep ++ join sep r
  end.

End PyStr.

Import PyStr.

(** ** Values, exceptions and the monad *)

(** What [json.loads] returns.  A [JDict] lists the items of the Python dict,
    whose keys are distinct. *)
Inductive JSON : Type :=
| JNull
| JBool (b : bool)
| JNum (q : Q)
| JStr (s : str)
| JList (l : list JSON)
| JDict (items : list (str * JSON)).

Inductive exn : Type :=
| JSONDecodeError
| EmbeddingUnavailable
| GenerationFailed
| StoreCorruptError
| OSError
| KeyError
| TypeError
| AttributeError
| ValidationError
| AssertionError
| UnboundLocalError.

Inductive result (A : Type) : Type :=
| Ok (a : A)
| Raise (e : exn).
Arguments Ok {A} a.
Arguments Raise {A} e.

Definition is_ok {A} (r : result A) : bool :=
  match r with Ok _ => true | Raise _ => false end.

(** [d.get(k)] on a parsed object. *)
Fixpoint dict_get (k : str) (items : list (str * JSON)) : option JSON :=
  match items with
  | [] => None
  | (k', v) :: r => if decide (k' = k) then Some v else dict_get k r
  end.

(** ** Documents and the vector store *)

Abbreviation vec := (list Q).

(** The [metadata] dict of a [Document]: the seed loader writes the three
    keys, [add_memory] writes [topic] and [source] only. *)
Record Metadata : Type := mkMetadata {
  topic : JSON;
  confidence : option JSON;
  source : str
}.

Record Document : Type := mkDocument {
  page_content : str;
  metadata : Metadata
}.

(** A FAISS store: the indexed vectors with their documents, in insertion
    order.  Each entry has its own docstore id, so [len(docstore._dict)] is
    the length of the list. *)
Abbreviation FAISS := (list (vec * Document)).

Inductive file : Type :=
| TextFile (content : str)
| IndexDir (saved : FAISS)
| Garbage.

Abbreviation Disk := (gmap str file).

(** A computation over a mutable state [S] that may raise: the state reached
    is returned also when an exception is raised, since what was written
    before the exception stays written. *)
Definition M (S A : Type) : Type := S -> result A * S.

Definition ret {S A} (a : A) : M S A := fun s => (Ok a, s).

Definition raise {S A} (e : exn) : M S A := fun s => (Raise e, s).

Definition bind {S A B} (m : M S A) (k : A -> M S B) : M S B :=
  fun s =>
    match m s with
    | (Ok a, s') => k a s'
    | (Raise e, s') => (Raise e, s')
    end.

Definition lift_result {S A} (r : result A) : M S A := fun s => (r, s).

(** [try: m  except Exception: h] *)
Definition try_except {S A} (m : M S A) (h : exn -> M S A) : M S A :=
  fun s =>
    match m s with
    | (Ok a, s') => (Ok a, s')
    | (Raise e, s') => h e s'
    end.

Definition modify {S} (f : S -> S) : M S unit := fun s => (Ok tt, f s).

Declare Scope py_scope.
Delimit Scope py_scope with py.
Notation "x <- m ;; k" := (bind m (fun x => k))
  (at level 100, m at next level, right associativity) : py_scope.
Notation "m ;;; k" := (bind m (fun _ => k))
  (at level 100, right associativity) : py_scope.
Local Open Scope py_scope.

(** [[f(x) for x in l]] where [f] may raise. *)
Fixpoint map_result {A B} (f : A -> result B) (l : list A) : result (list B) :=
  match l with
  | [] => Ok []
  | x :: r =>
      match f x with
      | Raise e => Raise e
      | Ok y =>
          match map_result f r with
          | Raise e => Raise e
          | Ok ys => Ok (y :: ys)
          end
      end
  end.

(** ** Messages *)

Inductive Message : Type :=
| SystemMessage (content : str)
| HumanMessage (content : str)
| AIMessage (content : str).

(** ** The environment *)

Record Env : Type := mkEnv {
  (** [agent/config.py], read from the process environment *)
  FAISS_INDEX_PATH : str;
  MEMORIES_FILE : str;
  LONG_TERM_TOP_K : Z;
  SHORT_TERM_WINDOW : Z;
  (** the embedding object can be constructed, or its construction raises *)
  embeddings_ctor : result unit;
  (** the embedding model: [embed_query] and [embed_documents] on one text *)
  embed : str -> result vec;
  (** the distance FAISS ranks by (smaller is more similar) *)
  distance : vec -> vec -> Q;
  (** [json.loads]; [None] is [json.JSONDecodeError] *)
  json_loads : str -> option JSON;
  (** the chat model: [llm.invoke(messages).content] *)
  llm_invoke : list Message -> result str;
  (** [build_system_prompt()] and [build_fewshot_messages()], built once *)
  system_prompt : str;
  fewshot : list Message
}.

(** ** [agent/memory.py] *)

Record LongTermMemory : Type := mkLongTermMemory {
  index_path : str;
  vectorstore : option FAISS
}.

(** The [Document] that [add_memory] builds for a fact. *)
Definition conversation_doc (fact topic : str) : Document :=
  {| page_content := fact;
     metadata := {| topic := JStr topic;
                    confidence := None;
                    source := lit "conversation" |} |}.

(** The records of a store, none for a store that was never built. *)
Definition records (self : LongTermMemory) : FAISS :=
  default [] (vectorstore self).

(** The texts a store holds, in insertion order. *)
Definition texts (store : FAISS) : list str :=
  map (fun x : vec * Document => page_content (snd x)) store.

Section Memory.

Variable E : Env.

(** [embeddings.embed_documents(texts)]: one vector per text, or the first
    failure. *)
Definition embed_documents (docs : list Document) : result (list vec) :=
  map_result (fun d => embed E (page_content d)) docs.

(** [FAISS.from_documents(docs, embeddings)] *)
Definition from_documents (docs : list Document) : result FAISS :=
  match embed_documents docs with
  | Ok vs => Ok (combine vs docs)
  | Raise e => Raise e
  end.

(** [vectorstore.add_documents(docs)]: the texts are embedded first, then the
    entries are appended. *)
Definition add_documents (store : FAISS) (docs : list Document) : result FAISS :=
  match from_documents docs with
  | Ok new => Ok (store ++ new)
  | Raise e => Raise e
  end.

(** [vectorstore.save_local(path)]; the write itself is taken to succeed. *)
Definition save_local (store : FAISS) (path : str) : M Disk unit :=
  modify (fun d : Disk => <[path := IndexDir store]> d).

(** [FAISS.load_local(path, embeddings, ...)] *)
Definition load_local (path : str) : M Disk FAISS :=
  fun d =>
    match d !! path with
    | Some (IndexDir s) => (Ok s, d)
    | _ => (Raise StoreCorruptError, d)
    end.

(** Ranking: entries by increasing distance to the query vector, an entry
    inserted earlier before a later one at the same distance. *)
Fixpoint insert_nearer (q : vec) (x : vec * Document) (l : FAISS) : FAISS :=
  match l with
  | [] => [x]
  | y :: r =>
      if Qle_bool (distance E q (fst x)) (distance E q (fst y))
      then x :: l
      else y :: insert_nearer q x r
  end.

Fixpoint nearest_first (q : vec) (l : FAISS) : FAISS :=
  match l with
  | [] => []
  | x :: r => insert_nearer q x (nearest_first q r)
  end.

(** [vectorstore.similarity_search(query, k=k)]: the query is embedded, then
    the index is searched; the index search starts with [assert k > 0]. *)
Definition similarity_search (store : FAISS) (query : str) (k : Z)
  : result (list Document) :=
  match embed E query with
  | Ok q =>
      if (k <=? 0)%Z then Raise AssertionError
      else Ok (map snd (firstn (Z.to_nat k) (nearest_first q store)))
  | Raise e => Raise e
  end.

(** One entry of ["memories"] in the seed file. *)
Definition seed_document (mem : JSON) : result Document :=
  match mem with
  | JDict items =>
      match dict_get (lit "fact") items with
      | None => Raise KeyError
      | Some (JStr fact) =>
          Ok {| page_content := fact;
                metadata :=
                  {| topic := default (JStr []) (dict_get (lit "topic") items);
                     confidence :=
                       Some (default (JStr (lit "medium"))
                               (dict_get (lit "confidence") items));
                     source := lit "initial" |} |}
      | Some _ => Raise ValidationError
      end
  | _ => Raise TypeError
  end.

(** [LongTermMemory._load_initial_memories] *)
Definition _load_initial_memories : M Disk (list Document) :=
  fun d =>
    match d !! MEMORIES_FILE E with
    | None => (Ok [], d)
    | Some (TextFile content) =>
        match json_loads E content with
        | None => (Raise JSONDecodeError, d)
        | Some (JDict items) =>
            match default (JList []) (dict_get (lit "memories") items) with
            | JList mems => (map_result seed_document mems, d)
            | JStr [] | JDict [] => (Ok [], d)
            | _ => (Raise TypeError, d)
            end
        | Some _ => (Raise AttributeError, d)
        end
    | Some _ => (Raise OSError, d)
    end.

(** [LongTermMemory._load_or_create]; returns the new [self.vectorstore]. *)
Definition _load_or_create (path : str) : M Disk (option FAISS) :=
  fun d =>
    match d !! path with
    | Some _ => (s <- load_local path ;; ret (Some s)) d
    | None =>
        (docs <- _load_initial_memories ;;
         match docs with
         | [] => ret None
         | _ :: _ =>
             vs <- lift_result (from_documents docs) ;;
             save_local vs path ;;;
             ret (Some vs)
         end) d
    end.

(** [LongTermMemory.__init__] *)
Definition LongTermMemory_init (path : str) : M Disk LongTermMemory :=
  lift_result (embeddings_ctor E) ;;;
  vs <- _load_or_create path ;;
  ret {| index_path := path; vectorstore := vs |}.

(** [LongTermMemory.search] *)
Definition search (self : LongTermMemory) (query : str) (top_k : Z)
  : result (list str) :=
  match vectorstore self with
  | None => Ok []
  | Some store =>
      match similarity_search store query top_k with
      | Ok results => Ok (map page_content results)
      | Raise e => Raise e
      end
  end.

(** [LongTermMemory.add_memory]; returns [self] as the call leaves it. *)
Definition add_memory (self : LongTermMemory) (fact : str) (topic : str)
  : M Disk LongTermMemory :=
  let doc := conversation_doc fact topic in
  vs <- lift_result
          match vectorstore self with
          | Some store => add_documents store [doc]
          | None => from_documents [doc]
          end ;;
  save_local vs (index_path self) ;;;
  ret {| index_path := index_path self; vectorstore := Some vs |}.

(** [LongTermMemory.get_all_count] *)
Definition get_all_count (self : LongTermMemory) : nat :=
  match vectorstore self with
  | None => 0
  | Some store => length store
  end.

End Memory.


(** ** [agent/graph.py] *)

Record AgentState : Type := mkAgentState {
  messages : list Message;
  retrieved_memories : list str;
  should_extract_memory : bool
}.

(** The mutable world of a running agent: the disk, the module global
    [_long_term_memory] of [graph.py], and a log of the facts [add_memory] was
    called with through that global, in call order (a call is logged whether
    it returns or raises). *)
Record World : Type := mkWorld {
  disk : Disk;
  _long_term_memory : option LongTermMemory;
  add_calls : list str
}.

Definition on_disk {A} (m : M Disk A) : M World A :=
  fun w =>
    let (r, d) := m (disk w) in
    (r, {| disk := d;
           _long_term_memory := _long_term_memory w;
           add_calls := add_calls w |}).

Definition is_empty (s : str) : bool :=
  match s with [] => true | _ => false end.

(** [lst[start:]] for a Python integer [start]. *)
Definition slice_from {A} (start : Z) (l : list A) : list A :=
  let n := Z.of_nat (length l) in
  let i := if (start <? 0)%Z then Z.max (n + start) 0 else Z.min start n in
  skipn (Z.to_nat i) l.

(** The loop of [retrieve_memories] over [reversed(messages)]: the content of
    the first [HumanMessage] met, the empty string when there is none. *)
Fixpoint first_human (msgs : list Message) : str :=
  match msgs with
  | [] => []
  | HumanMessage c :: _ => c
  | _ :: r => first_human r
  end.

(** The loop of [extract_memory] over [reversed(messages)], from the current
    values of [last_human] and [last_ai]. *)
Fixpoint last_exchange (msgs : list Message) (last_human last_ai : str)
  : str * str :=
  match msgs with
  | [] => (last_human, last_ai)
  | msg :: r =>
      let '(h, a) :=
        match msg with
        | AIMessage c =>
            if is_empty last_ai then (last_human, c) else (last_human, last_ai)
        | HumanMessage c =>
            if is_empty last_human then (c, last_ai) else (last_human, last_ai)
        | SystemMessage _ => (last_human, last_ai)
        end in
      if negb (is_empty h) && negb (is_empty a) then (h, a)
      else last_exchange r h a
  end.

Definition memory_header : str :=
  [nl; nl] ++
  lit "[你的记忆 - 以下是你脑海中和当前话题相关的记忆碎片，不用刻意提起每一条，只在对话自然需要的时候引用就好]"
  ++ [nl].

Definition extract_instruction : str :=
  lit "你是一个记忆提取器。分析以下对话，判断用户是否提到了值得长期记住的新事实（比如：个人信息、偏好、重要计划、重大事件、兴趣爱好等具体信息）。"
  ++ [nl; nl] ++ lit "注意：" ++ [nl]
  ++ lit "- 只提取具体的、有信息量的事实，不要提取模糊的情绪或打招呼" ++ [nl]
  ++ lit "- 比如'用户今天心情不好'这种太泛，不值得记住" ++ [nl]
  ++ lit "- 但'用户正在准备考研'、'用户养了一只叫小白的猫'这种具体信息值得记住"
  ++ [nl; nl]
  ++ lit "如果有，输出一个JSON数组，每个元素是一条事实字符串。" ++ [nl]
  ++ lit "如果没有值得记住的新信息，只输出空数组 []" ++ [nl; nl]
  ++ lit "只输出JSON数组，不要输出任何其他内容。".

Definition extract_prompt (last_human last_ai : str) : list Message :=
  [ SystemMessage extract_instruction;
    HumanMessage (lit "用户: " ++ last_human ++ [nl] ++ lit "Raymond: " ++ last_ai) ].

(** The removal of a Markdown fence around the model's answer. *)
Definition unfence (content : str) : str :=
  if startswith fence content
  then strip (rsplit1_first fence (split1_last [nl] content))
  else content.

(** [isinstance(fact, str) and len(fact) > 5] *)
Definition accepted (fact : JSON) : option str :=
  match fact with
  | JStr s => if 5 <? length s then Some s else None
  | _ => None
  end.

(** [extract_memory] gets past its three early returns with [last_human = h]
    and [last_ai = a]. *)
Definition has_exchange (state : AgentState) (h a : str) : Prop :=
  should_extract_memory state = true /\
  2 <= length (messages state) /\
  last_exchange (rev (messages state)) [] [] = (h, a) /\
  is_empty h = false /\ is_empty a = false.

(** The extraction model's answer gives no array of facts: the text is no
    JSON, or the JSON is no array. *)
Definition no_array (content : str) (loads : str -> option JSON) : Prop :=
  match loads (unfence (strip content)) with
  | Some (JList _) => False
  | _ => True
  end.

Section Graph.

Variable E : Env.

(** [_get_memory()]: the singleton, built on first use. *)
Definition _get_memory : M World LongTermMemory :=
  fun w =>
    match _long_term_memory w with
    | Some m => (Ok m, w)
    | None =>
        (m <- on_disk (LongTermMemory_init E (FAISS_INDEX_PATH E)) ;;
         modify (fun w' => {| disk := disk w';
                              _long_term_memory := Some m;
                              add_calls := add_calls w' |}) ;;;
         ret m) w
    end.

(** [memory.add_memory(fact)] on the singleton [memory]: the object is
    mutated in place, so the global sees the new store. *)
Definition call_add_memory (memory : LongTermMemory) (fact : str)
  : M World LongTermMemory :=
  modify (fun w => {| disk := disk w;
                      _long_term_memory := _long_term_memory w;
                      add_calls := add_calls w ++ [fact] |}) ;;;
  memory' <- on_disk (add_memory E memory fact []) ;;
  modify (fun w => {| disk := disk w;
                      _long_term_memory := Some memory';
                      add_calls := add_calls w |}) ;;;
  ret memory'.

(** Node 1. *)
Definition retrieve_memories (state : AgentState) : M World AgentState :=
  let last_human := first_human (rev (messages state)) in
  if is_empty last_human then
    ret {| messages := messages state;
           retrieved_memories := [];
           should_extract_memory := should_extract_memory state |}
  else
    memory <- _get_memory ;;
    results <- lift_result (search E memory last_human (LONG_TERM_TOP_K E)) ;;
    ret {| messages := messages state;
           retrieved_memories := results;
           should_extract_memory := should_extract_memory state |}.

(** The short-term window of [generate_response]. *)
Definition window (conversation : list Message) : list Message :=
  let max_msgs := (SHORT_TERM_WINDOW E * 2)%Z in
  if (max_msgs <? Z.of_nat (length conversation))%Z
  then slice_from (- max_msgs) conversation
  else conversation.

Definition full_system (retrieved : list str) : str :=
  match retrieved with
  | [] => system_prompt E
  | _ :: _ =>
      system_prompt E ++ memory_header
        ++ join [nl] (map (fun m => lit "- " ++ m) retrieved)
  end.

Definition prompt_messages (state : AgentState) : list Message :=
  SystemMessage (full_system (retrieved_memories state))
    :: fewshot E ++ window (messages state).

(** Node 2.  The returned [messages] entry is merged by [add_messages], which
    appends it to the transcript. *)
Definition generate_response (state : AgentState) : M World AgentState :=
  response <- lift_result (llm_invoke E (prompt_messages state)) ;;
  ret {| messages := messages state ++ [AIMessage response];
         retrieved_memories := retrieved_memories state;
         should_extract_memory := true |}.

(** The loop [for fact in facts] of [extract_memory]. *)
Fixpoint add_facts (memory : LongTermMemory) (facts : list JSON) : M World unit :=
  match facts with
  | [] => ret tt
  | fact :: r =>
      match accepted fact with
      | Some s => memory' <- call_add_memory memory s ;; add_facts memory' r
      | None => add_facts memory r
      end
  end.

(** The [try] block of [extract_memory] from [import json] on, for the
    answer [result] of the model. *)
Definition extract_body (result : str) : M World unit :=
  let content := unfence (strip result) in
  match json_loads E content with
  | None => raise JSONDecodeError
  | Some (JList facts) =>
      memory <- _get_memory ;;
      add_facts memory facts
  | Some _ => ret tt
  end.

(** The [try] statement of [extract_memory].  [import json] stands inside the
    [try] block, after [llm.invoke] and [.strip()]; it makes [json] a local
    name of the function, unbound until that line runs.  An exception of the
    model call therefore reaches [except (json.JSONDecodeError, Exception)]
    with [json] unbound, and evaluating the clause raises
    [UnboundLocalError]; an exception raised after the import is matched by
    [Exception] and dropped. *)
Definition extract_try (last_human last_ai : str) : M World unit :=
  fun w =>
    match llm_invoke E (extract_prompt last_human last_ai) with
    | Raise _ => (Raise UnboundLocalError, w)
    | Ok result => try_except (extract_body result) (fun _ => ret tt) w
    end.

(** Node 3. *)
Definition extract_memory (state : AgentState) : M World AgentState :=
  let cleared := {| messages := messages state;
                    retrieved_memories := retrieved_memories state;
                    should_extract_memory := false |} in
  if negb (should_extract_memory state) then ret state
  else if length (messages state) <? 2 then ret cleared
  else
    let '(last_human, last_ai) := last_exchange (rev (messages state)) [] [] in
    if is_empty last_human || is_empty last_ai then ret cleared
    else
      extract_try last_human last_ai ;;;
      ret cleared.

(** The compiled graph: START, the three nodes in order, END. *)
Definition agent_invoke (state : AgentState) : M World AgentState :=
  s1 <- retrieve_memories state ;;
  s2 <- generate_response s1 ;;
  extract_memory s2.

(** One round of the loop of [chat.py]: the user line is appended to the
    transcript, the graph runs, and the state is replaced by its result only
    when no exception came out; the printed line is the reply or the error. *)
Definition chat_turn (user_input : str) (state : AgentState)
  : World -> (result (option str) * AgentState) * World :=
  fun w =>
    let state1 := {| messages := messages state ++ [HumanMessage user_input];
                     retrieved_memories := retrieved_memories state;
                     should_extract_memory := should_extract_memory state |} in
    match agent_invoke state1 w with
    | (Ok state2, w') =>
        (Ok match last (messages state2) with
            | Some (AIMessage c) => Some c
            | _ => None
            end, state2, w')
    | (Raise e, w') => (Raise e, state1, w')
    end.

End Graph.

(** ** Concrete environments

    Small, fully computable instances of [Env] on which the model is run. *)

Module Demo.

(** The double quote character. *)
Definition dq : N := 34%N.

Definition fold_case (c : N) : N :=
  if ((65 <=? c) && (c <=? 90))%N then (c + 32)%N else c.

(** An embedding that does not see letter case, as an uncased tokenizer
    gives: the length of the text and the sum of its case-folded code
    points. *)
Definition embed_uncased (s : str) : result vec :=
  Ok [ inject_Z (Z.of_nat (length s));
       inject_Z (Z.of_N (foldr N.add 0%N (map fold_case s))) ].


(** Squared Euclidean distance. *)
Fixpoint l2 (a b : vec) : Q :=
  match a, b with
  | x :: a', y :: b' => ((x - y) * (x - y) + l2 a' b')%Q
  | _, _ => 0%Q
  end.

(** [json.loads] given by its graph on the texts listed in [tbl]; every
    other text is malformed. *)
Definition json_table (tbl : list (str * JSON)) (s : str) : option JSON :=
  dict_get s tbl.

(** A chat model that answers the extraction prompt with [extraction] and
    every other prompt with [reply]. *)
Definition chat_model (reply extraction : result str) (msgs : list Message)
  : result str :=
  match msgs with
  | SystemMessage s :: _ =>
      if decide (s = extract_instruction) then extraction else reply
  | _ => reply
  end.

Definition env (W : Z) (emb : str -> result vec) (tbl : list (str * JSON))
    (reply extraction : result str) : Env :=
  {| FAISS_INDEX_PATH := lit "raymond_memory_index";
     MEMORIES_FILE := lit "resources/raymond_memories.json";
     LONG_TERM_TOP_K := 5%Z;
     SHORT_TERM_WINDOW := W;
     embeddings_ctor := Ok tt;
     embed := emb;
     distance := l2;
     json_loads := json_table tbl;
     llm_invoke := chat_model reply extraction;
     system_prompt := lit "You are Raymond.";
     fewshot := [] |}.

(** [["hi"]], [["user likes coffee"]], an object, and an empty seed file. *)
Definition json_hi : str := lit "[" ++ [dq] ++ lit "hi" ++ [dq] ++ lit "]".
Definition json_coffee : str :=
  lit "[" ++ [dq] ++ lit "user likes coffee" ++ [dq] ++ lit "]".
Definition json_object : str := lit "{}".
Definition json_no_seeds : str :=
  lit "{" ++ [dq] ++ lit "memories" ++ [dq] ++ lit ": []}".
Definition json_one_seed : str :=
  lit "{" ++ [dq] ++ lit "memories" ++ [dq] ++ lit ": [{" ++ [dq] ++ lit "fact"
    ++ [dq] ++ lit ": " ++ [dq] ++ lit "Raymond studies in the US" ++ [dq]
    ++ lit "}]}".

(** [["hi", "user has a cat named Mochi", 7]] *)
Definition json_mixed : str :=
  lit "[" ++ [dq] ++ lit "hi" ++ [dq] ++ lit ", " ++ [dq]
    ++ lit "user has a cat named Mochi" ++ [dq] ++ lit ", 7]".

Definition table : list (str * JSON) :=
  [ (json_hi, JList [JStr (lit "hi")]);
    (json_mixed,
     JList [JStr (lit "hi"); JStr (lit "user has a cat named Mochi"); JNum 7]);
    (json_coffee, JList [JStr (lit "user likes coffee")]);
    (json_object, JDict []);
    (json_no_seeds, JDict [(lit "memories", JList [])]);
    (json_one_seed,
     JDict [(lit "memories",
             JList [JDict [(lit "fact", JStr (lit "Raymond studies in the US"))]])]) ].

(** [s] inside a Markdown fence tagged [json]. *)
Definition fenced (s : str) : str :=
  fence ++ lit "json" ++ [nl] ++ s ++ [nl] ++ fence.

Definition empty_world : World :=
  {| disk := ∅; _long_term_memory := None; add_calls := [] |}.

Definition fresh_state : AgentState :=
  {| messages := []; retrieved_memories := []; should_extract_memory := false |}.

End Demo.

Module DemoStores.
Import Demo.

(** The default configuration: window of 20 rounds, everything up. *)
Definition E0 : Env :=
  env 20 embed_uncased table (Ok (lit "66")) (Ok (lit "[]")).

Definition path : str := FAISS_INDEX_PATH E0.

(** A disk with an empty seed file and no index. *)
Definition disk_no_seeds : Disk :=
  {[ MEMORIES_FILE E0 := TextFile json_no_seeds ]}.

(** A disk with one seed and no index. *)
Definition disk_one_seed : Disk :=
  {[ MEMORIES_FILE E0 := TextFile json_one_seed ]}.

Definition seed_doc : Document :=
  {| page_content := lit "Raymond studies in the US";
     metadata := {| topic := JStr [];
                    confidence := Some (JStr (lit "medium"));
                    source := lit "initial" |} |}.

Definition vec_of (s : str) : vec :=
  match embed_uncased s with Ok v => v | Raise _ => [] end.

Definition tea_upper : str := lit "User likes tea".
Definition tea_lower : str := lit "user likes tea".

(** A store that already holds ["User likes tea"]. *)
Definition tea_store : LongTermMemory :=
  {| index_path := path;
     vectorstore := Some [(vec_of tea_upper, conversation_doc tea_upper [])] |}.

(** The store and the disk after [add_memory(tea_lower)] on [tea_store]. *)
Definition tea_store2 : LongTermMemory :=
  {| index_path := path;
     vectorstore := Some [ (vec_of tea_upper, conversation_doc tea_upper []);
                           (vec_of tea_lower, conversation_doc tea_lower []) ] |}.

Definition tea_disk2 : Disk :=
  {[ path := IndexDir [ (vec_of tea_upper, conversation_doc tea_upper []);
                        (vec_of tea_lower, conversation_doc tea_lower []) ] ]}.


Definition never_built : LongTermMemory :=
  {| index_path := path; vectorstore := None |}.

Definition mochi : str := lit "user has a cat named Mochi".

(** The store and the disk after [add_memory(mochi)] on [never_built]. *)
Definition mochi_store : LongTermMemory :=
  {| index_path := path;
     vectorstore := Some [(vec_of mochi, conversation_doc mochi [])] |}.

Definition mochi_disk : Disk :=
  {[ path := IndexDir [(vec_of mochi, conversation_doc mochi [])] ]}.

End DemoStores.

Module DemoTurns.
Import Demo.

(** The round window set to 0. *)
Definition E_W0 : Env :=
  env 0 embed_uncased table (Ok (lit "66")) (Ok (lit "[]")).

(** The round window set to 1. *)
Definition E_W1 : Env :=
  env 1 embed_uncased table (Ok (lit "66")) (Ok (lit "[]")).

Definition three_turns : list Message :=
  [ HumanMessage (lit "hello"); AIMessage (lit "66");
    HumanMessage (lit "what are you doing") ].


(** The exchange of the end-to-end example, before extraction. *)
Definition mochi_exchange : AgentState :=
  {| messages := [ HumanMessage (lit "my cat is named Mochi");
                   AIMessage (lit "aww what breed") ];
     retrieved_memories := [];
     should_extract_memory := true |}.

(** The extraction model answers with a bare array of three elements. *)
Definition E_mixed : Env :=
  env 20 embed_uncased table (Ok (lit "aww what breed")) (Ok json_mixed).

(** The extraction model answers [["user likes coffee"]] inside a fence. *)
Definition E_coffee : Env :=
  env 20 embed_uncased table (Ok (lit "aww what breed"))
    (Ok (fenced json_coffee)).

(** The extraction model answers with an object, not an array. *)
Definition E_object : Env :=
  env 20 embed_uncased table (Ok (lit "aww what breed")) (Ok json_object).

(** The extraction model answers [["hi"]] inside a fence. *)
Definition E_hi : Env :=
  env 20 embed_uncased table (Ok (lit "aww what breed")) (Ok (fenced json_hi)).


(** A disk that holds an index with two records, the singleton not built. *)
Definition indexed_world : World :=
  {| disk := DemoStores.tea_disk2; _long_term_memory := None; add_calls := [] |}.

(** The same world once the singleton was loaded from that index. *)
Definition loaded_world : World :=
  {| disk := DemoStores.tea_disk2;
     _long_term_memory := Some DemoStores.tea_store2;
     add_calls := [] |}.

(** The world once the singleton was built on an empty disk. *)
Definition built_world : World :=
  {| disk := ∅;
     _long_term_memory :=
       Some {| index_path := lit "raymond_memory_index"; vectorstore := None |};
     add_calls := [] |}.

End DemoTurns.

(** ** [agent/config.py] and [agent/llm.py] *)

(** The three settings [create_llm] reads. *)
Record Config : Type := mkConfig {
  LLM_PROVIDER : str;
  LLM_MODEL : str;
  LLM_TEMPERATURE : Q
}.

Definition DEFAULT_MODELS : gmap str str :=
  {[ lit "anthropic" := lit "claude-sonnet-4-5-20250929";
     lit "openai" := lit "gpt-4o";
     lit "ollama" := lit "qwen3:32b" ]}.

(** [get_model_name()] *)
Definition get_model_name (C : Config) : str :=
  if is_empty (LLM_MODEL C) then
    default (lit "claude-sonnet-4-5-20250929") (DEFAULT_MODELS !! LLM_PROVIDER C)
  else LLM_MODEL C.

(** The chat model object [create_llm] constructs, with the arguments it is
    given. *)
Inductive ChatModel : Type :=
| ChatAnthropic (model : str) (temperature : Q) (max_tokens : N)
| ChatOpenAI (model : str) (temperature : Q) (max_tokens : N)
| ChatOllama (model : str) (temperature : Q) (num_ctx : N).

Definition model_of (m : ChatModel) : str :=
  match m with
  | ChatAnthropic n _ _ | ChatOpenAI n _ _ | ChatOllama n _ _ => n
  end.

(** [create_llm()]; [inr msg] is [ValueError(msg)]. *)
Definition create_llm (C : Config) : ChatModel + str :=
  let model_name := get_model_name C in
  if decide (LLM_PROVIDER C = lit "anthropic") then
    inl (ChatAnthropic model_name (LLM_TEMPERATURE C) 512%N)
  else if decide (LLM_PROVIDER C = lit "openai") then
    inl (ChatOpenAI model_name (LLM_TEMPERATURE C) 512%N)
  else if decide (LLM_PROVIDER C = lit "ollama") then
    inl (ChatOllama model_name (LLM_TEMPERATURE C) 8192%N)
  else inr (lit "不支持的 LLM provider: " ++ LLM_PROVIDER C).

(** ** [agent/prompt.py]: the few-shot messages *)

(** One entry of a ["conversation"] list of the few-shot file, for a file of
    the shape the loader indexes: each turn an object with a string ["role"]
    and a string ["content"]. *)
Record FewshotTurn : Type := mkFewshotTurn {
  turn_role : str;
  turn_content : str
}.

(** The body of the inner loop of [build_fewshot_messages]: what one turn
    appends. *)
Definition fewshot_turn (turn : FewshotTurn) : list Message :=
  if decide (turn_role turn = lit "human") then
    [HumanMessage (turn_content turn)]
  else if decide (turn_role turn = lit "assistant") then
    [AIMessage (turn_content turn)]
  else [].

(** [build_fewshot_messages()] on the ["examples"] of the parsed file, each
    example given by its ["conversation"]. *)
Definition build_fewshot_messages (examples : list (list FewshotTurn))
  : list Message :=
  concat (map (fun conversation => concat (map fewshot_turn conversation))
              examples).

Definition is_system (m : Message) : bool :=
  match m with SystemMessage _ => true | _ => false end.

Definition is_human (m : Message) : bool :=
  match m with HumanMessage _ => true | _ => false end.

(** The turn of a few-shot conversation is one the loader keeps. *)
Definition kept_role (turn : FewshotTurn) : bool :=
  bool_decide (turn_role turn = lit "human")
  || bool_decide (turn_role turn = lit "assistant").

(** The state [chat.py] passes to the graph for a user line. *)
Definition with_user_line (state : AgentState) (user_input : str) : AgentState :=
  {| messages := messages state ++ [HumanMessage user_input];
     retrieved_memories := retrieved_memories state;
     should_extract_memory := should_extract_memory state |}.

Module DemoExtra.
Import Demo.

Definition ollama_custom : Config :=
  {| LLM_PROVIDER := lit "ollama"; LLM_MODEL := lit "raymond";
     LLM_TEMPERATURE := 0.8 |}.

(** A few-shot file with one example of three turns, one of them with a
    role the loader does not know. *)
Definition fewshot_file : list (list FewshotTurn) :=
  [ [ {| turn_role := lit "human"; turn_content := lit "你在干嘛" |};
      {| turn_role := lit "system"; turn_content := lit "ignore me" |};
      {| turn_role := lit "assistant"; turn_content := lit "打游戏哈" |} ] ].

(** The default configuration with the few-shot messages of that file. *)
Definition E_fewshot : Env :=
  {| FAISS_INDEX_PATH := lit "raymond_memory_index";
     MEMORIES_FILE := lit "resources/raymond_memories.json";
     LONG_TERM_TOP_K := 5%Z;
     SHORT_TERM_WINDOW := 20;
     embeddings_ctor := Ok tt;
     embed := embed_uncased;
     distance := l2;
     json_loads := json_table table;
     llm_invoke := chat_model (Ok (lit "66")) (Ok (lit "[]"));
     system_prompt := lit "You are Raymond.";
     fewshot := build_fewshot_messages fewshot_file |}.

(** A seed file whose second entry has no ["fact"]. *)
Definition json_bad_seed : str :=
  lit "{" ++ [dq] ++ lit "memories" ++ [dq] ++ lit ": [{" ++ [dq] ++ lit "fact"
    ++ [dq] ++ lit ": " ++ [dq] ++ lit "Raymond studies in the US" ++ [dq]
    ++ lit "}, {" ++ [dq] ++ lit "topic" ++ [dq] ++ lit ": " ++ [dq]
    ++ lit "food" ++ [dq] ++ lit "}]}".

Definition table_bad_seed : list (str * JSON) :=
  [ (json_bad_seed,
     JDict [(lit "memories",
             JList [ JDict [(lit "fact", JStr (lit "Raymond studies in the US"))];
                     JDict [(lit "topic", JStr (lit "food"))] ])]) ].

Definition E_bad_seed : Env :=
  env 20 embed_uncased table_bad_seed (Ok (lit "66")) (Ok (lit "[]")).

Definition disk_bad_seed : Disk :=
  {[ MEMORIES_FILE E_bad_seed := TextFile json_bad_seed ]}.

(** An embedding that fails on texts longer than 20 characters. *)
Definition embed_short_only (s : str) : result vec :=
  if 20 <? length s then Raise EmbeddingUnavailable else embed_uncased s.

(** [["user likes tea", "user has a cat named Mochi", "user likes coffee"]] *)
Definition json_three : str :=
  lit "[" ++ [dq] ++ lit "user likes tea" ++ [dq] ++ lit ", " ++ [dq]
    ++ lit "user has a cat named Mochi" ++ [dq] ++ lit ", " ++ [dq]
    ++ lit "user likes coffee" ++ [dq] ++ lit "]".

Definition table_three : list (str * JSON) :=
  [ (json_three,
     JList [ JStr (lit "user likes tea");
             JStr (lit "user has a cat named Mochi");
             JStr (lit "user likes coffee") ]) ].

Definition E_three : Env :=
  env 20 embed_short_only table_three (Ok (lit "aww what breed")) (Ok json_three).

(** The chat model is down. *)
Definition E_llm_down : Env :=
  env 20 embed_uncased table (Raise GenerationFailed) (Ok (lit "[]")).

(** The chat model answers the chat prompt and fails on the extraction
    prompt. *)
Definition E_extract_down : Env :=
  env 20 embed_uncased table (Ok (lit "aww what breed")) (Raise GenerationFailed).

(** The round window set to -1. *)
Definition E_Wneg : Env :=
  env (-1) embed_uncased table (Ok (lit "66")) (Ok (lit "[]")).

End DemoExtra.


(** * Properties *)

(** ** The vector store *)

Lemma map_result_length {A B} (f : A -> result B) l ys :
  map_result f l = Ok ys -> length ys = length l.
Proof.
  revert ys; induction l as [|x l IH]; simpl; intros ys H.
  - now inversion H.
  - destruct (f x); [|discriminate].
    destruct (map_result f l) as [zs|]; [|discriminate].
    inversion H; subst; simpl. f_equal. now apply IH.
Qed.

Lemma from_documents_one E doc v :
  embed E (page_content doc) = Ok v -> from_documents E [doc] = Ok [(v, doc)].
Proof.
  intros Hv. unfold from_documents, embed_documents. simpl. now rewrite Hv.
Qed.

Lemma add_documents_one E store doc v :
  embed E (page_content doc) = Ok v ->
  add_documents E store [doc] = Ok (store ++ [(v, doc)]).
Proof.
  intros Hv. unfold add_documents. now rewrite (from_documents_one E doc v Hv).
Qed.

Lemma get_all_count_records self : get_all_count self = length (records self).
Proof. unfold get_all_count, records. now destruct (vectorstore self). Qed.

(** What a successful [add_memory] does, whatever the store was. *)
Lemma add_memory_ok E self fact tp v d :
  embed E fact = Ok v ->
  add_memory E self fact tp d =
    (Ok {| index_path := index_path self;
           vectorstore := Some (records self ++ [(v, conversation_doc fact tp)]) |},
     <[index_path self := IndexDir (records self ++ [(v, conversation_doc fact tp)])]> d).
Proof.
  intros Hv. unfold add_memory, records, bind, lift_result, save_local, modify, ret.
  destruct (vectorstore self) as [store|]; simpl.
  - now rewrite (add_documents_one E store (conversation_doc fact tp) v Hv).
  - now rewrite (from_documents_one E (conversation_doc fact tp) v Hv).
Qed.

(** A failed embedding leaves the object and the disk as they were. *)
Lemma add_memory_raise E self fact tp e d :
  embed E fact = Raise e -> add_memory E self fact tp d = (Raise e, d).
Proof.
  intros Hv. unfold add_memory, bind, lift_result.
  destruct (vectorstore self) as [store|]; simpl;
    unfold add_documents, from_documents, embed_documents; simpl;
    now rewrite Hv.
Qed.

(** C10: on a store that was never built, [get_all_count] is 0 and
    [add_memory] does not fail: it builds a store holding exactly the new
    record, writes it to the index path, and [get_all_count] is then 1. *)
Theorem add_memory_on_uninitialized E self fact tp v d :
  vectorstore self = None ->
  embed E fact = Ok v ->
  get_all_count self = 0 /\
  exists self',
    add_memory E self fact tp d =
      (Ok self', <[index_path self := IndexDir [(v, conversation_doc fact tp)]]> d) /\
    vectorstore self' = Some [(v, conversation_doc fact tp)] /\
    get_all_count self' = 1.
Proof.
  intros Hnone Hv. split.
  - unfold get_all_count. now rewrite Hnone.
  - eexists. rewrite (add_memory_ok E self fact tp v d Hv).
    unfold records. rewrite Hnone. simpl. repeat split.
Qed.

(** C7: [add_memory] embeds the fact, appends one record to the store and has
    written the whole store to the index path when it returns; nothing is
    looked up before appending, so a second call with the same fact appends a
    second record, and each call raises [get_all_count] by one. *)
Theorem add_memory_appends_and_persists E self fact tp v d :
  embed E fact = Ok v ->
  let r := (v, conversation_doc fact tp) in
  exists self1 d1 self2 d2,
    add_memory E self fact tp d = (Ok self1, d1) /\
    vectorstore self1 = Some (records self ++ [r]) /\
    d1 !! index_path self = Some (IndexDir (records self ++ [r])) /\
    get_all_count self1 = S (get_all_count self) /\
    add_memory E self1 fact tp d1 = (Ok self2, d2) /\
    vectorstore self2 = Some (records self ++ [r; r]) /\
    d2 !! index_path self = Some (IndexDir (records self ++ [r; r])) /\
    get_all_count self2 = S (S (get_all_count self)).
Proof.
  intros Hv r.
  pose (self1 := {| index_path := index_path self;
                    vectorstore := Some (records self ++ [r]) |}).
  pose (self2 := {| index_path := index_path self;
                    vectorstore := Some (records self ++ [r; r]) |}).
  assert (H1 : add_memory E self fact tp d =
               (Ok self1, <[index_path self := IndexDir (records self ++ [r])]> d))
    by apply (add_memory_ok E self fact tp v d Hv).
  assert (H2 : forall d1, add_memory E self1 fact tp d1 =
               (Ok self2, <[index_path self := IndexDir (records self ++ [r; r])]> d1)).
  { intros d1. rewrite (add_memory_ok E self1 fact tp v d1 Hv).
    unfold self1, self2, records; simpl. fold r.
    now rewrite <- app_assoc. }
  exists self1, (<[index_path self := IndexDir (records self ++ [r])]> d),
         self2, (<[index_path self := IndexDir (records self ++ [r; r])]>
                   (<[index_path self := IndexDir (records self ++ [r])]> d)).
  repeat split; try assumption; try apply H2; try apply lookup_insert_eq.
  - rewrite !get_all_count_records. unfold self1, records at 1; simpl.
    rewrite length_app. simpl. lia.
  - rewrite !get_all_count_records. unfold self2, records at 1; simpl.
    rewrite length_app. simpl. lia.
Qed.

(** *** Ranking *)



Lemma insert_nearer_perm E q x l : Permutation (insert_nearer E q x l) (x :: l).
Proof.
  induction l as [|y l IH]; simpl.
  - reflexivity.
  - destruct (Qle_bool _ _).
    + reflexivity.
    + rewrite IH. apply perm_swap.
Qed.

Lemma nearest_first_perm E q l : Permutation (nearest_first E q l) l.
Proof.
  induction l as [|x l IH]; simpl.
  - reflexivity.
  - rewrite insert_nearer_perm. now constructor.
Qed.




Lemma elem_of_take_1 {A} (x : A) k (l : list A) : x ∈ take k l -> x ∈ l.
Proof.
  intros H. rewrite <- (take_drop k l). apply elem_of_app. now left.
Qed.

Lemma nearest_first_length E q l : length (nearest_first E q l) = length l.
Proof. apply Permutation_length, nearest_first_perm. Qed.

Lemma elem_of_nearest_first E q l x : x ∈ nearest_first E q l <-> x ∈ l.
Proof. now rewrite (nearest_first_perm E q l). Qed.




(** *** Start-up *)

Lemma _load_initial_memories_disk E d : snd (_load_initial_memories E d) = d.
Proof.
  unfold _load_initial_memories.
  destruct (d !! MEMORIES_FILE E) as [[content| |]|]; try reflexivity.
  destruct (json_loads E content) as [[]|]; try reflexivity.
  destruct (default _ _) as [| | |[]|?|[]]; reflexivity.
Qed.


(** C2, as the code has it: with no index at the path, [LongTermMemory()]
    builds a store from the seed documents and writes it to the path at once
    when there is at least one seed document; with no seed document it builds
    no store and writes nothing, so the path still holds no index. *)
Theorem load_or_create_without_index E path d docs :
  embeddings_ctor E = Ok tt ->
  d !! path = None ->
  fst (_load_initial_memories E d) = Ok docs ->
  (docs = [] ->
     LongTermMemory_init E path d =
       (Ok {| index_path := path; vectorstore := None |}, d)) /\
  (docs <> [] -> forall vs, from_documents E docs = Ok vs ->
     LongTermMemory_init E path d =
       (Ok {| index_path := path; vectorstore := Some vs |},
        <[path := IndexDir vs]> d) /\
     map snd vs = docs).
Proof.
  intros Hc Hd Hdocs.
  pose proof (_load_initial_memories_disk E d) as Hdisk.
  destruct (_load_initial_memories E d) as [r d'] eqn:Hl.
  simpl in Hdocs, Hdisk. subst r d'.
  split.
  - intros ->.
    unfold LongTermMemory_init, bind, lift_result. rewrite Hc.
    unfold _load_or_create. rewrite Hd. unfold bind. now rewrite Hl.
  - intros Hne vs Hvs. split.
    + unfold LongTermMemory_init, bind, lift_result. rewrite Hc.
      unfold _load_or_create. rewrite Hd. unfold bind. rewrite Hl.
      destruct docs as [|doc docs]; [congruence|].
      unfold lift_result. now rewrite Hvs.
    + unfold from_documents in Hvs.
      destruct (embed_documents E docs) as [es|] eqn:He; [|discriminate].
      inversion Hvs; subst.
      apply map_result_length in He.
      clear -He. revert es He.
      induction docs as [|doc docs IH]; intros [|e es] He; simpl in *;
        try discriminate; try reflexivity.
      f_equal. apply IH. lia.
Qed.

Lemma load_or_create_without_index_witness :
  LongTermMemory_init DemoStores.E0 DemoStores.path DemoStores.disk_one_seed =
    (Ok {| index_path := DemoStores.path;
           vectorstore :=
             Some [(DemoStores.vec_of (page_content DemoStores.seed_doc),
                    DemoStores.seed_doc)] |},
     <[DemoStores.path :=
         IndexDir [(DemoStores.vec_of (page_content DemoStores.seed_doc),
                    DemoStores.seed_doc)]]> DemoStores.disk_one_seed) /\
  map snd [(DemoStores.vec_of (page_content DemoStores.seed_doc),
            DemoStores.seed_doc)] = [DemoStores.seed_doc].
Proof.
  apply (proj2 (load_or_create_without_index DemoStores.E0 DemoStores.path
                  DemoStores.disk_one_seed [DemoStores.seed_doc]
                  eq_refl ltac:(vm_compute; reflexivity)
                  ltac:(vm_compute; reflexivity))).
  - discriminate.
  - vm_compute; reflexivity.
Defined.

(** C2 fails when the seed collection is empty: the seed file lists no
    memory, [LongTermMemory()] returns a store that was never built, and
    afterwards the path still holds no index. *)
Lemma load_or_create_empty_seeds_persists_nothing :
  DemoStores.disk_no_seeds !! DemoStores.path = None /\
  fst (_load_initial_memories DemoStores.E0 DemoStores.disk_no_seeds) = Ok [] /\
  fst (LongTermMemory_init DemoStores.E0 DemoStores.path DemoStores.disk_no_seeds)
    = Ok DemoStores.never_built /\
  snd (LongTermMemory_init DemoStores.E0 DemoStores.path DemoStores.disk_no_seeds)
    !! DemoStores.path = None.
Proof. repeat split; vm_compute; reflexivity. Qed.

(** *** Restart *)

Lemma add_memory_inv E self fact tp d self1 d1 :
  add_memory E self fact tp d = (Ok self1, d1) ->
  exists v,
    embed E fact = Ok v /\
    self1 = {| index_path := index_path self;
               vectorstore := Some (records self ++ [(v, conversation_doc fact tp)]) |} /\
    d1 = <[index_path self := IndexDir (records self ++ [(v, conversation_doc fact tp)])]> d.
Proof.
  intros H. destruct (embed E fact) as [v|e] eqn:Hv.
  - exists v. rewrite (add_memory_ok E self fact tp v d Hv) in H.
    inversion H; subst. auto.
  - rewrite (add_memory_raise E self fact tp e d Hv) in H. discriminate.
Qed.




Lemma add_memory_on_uninitialized_witness :
  get_all_count DemoStores.never_built = 0 /\
  exists self',
    add_memory DemoStores.E0 DemoStores.never_built (lit "user likes coffee") [] ∅
      = (Ok self',
         <[index_path DemoStores.never_built :=
             IndexDir [(DemoStores.vec_of (lit "user likes coffee"),
                        conversation_doc (lit "user likes coffee") [])]]> ∅) /\
    vectorstore self'
      = Some [(DemoStores.vec_of (lit "user likes coffee"),
               conversation_doc (lit "user likes coffee") [])] /\
    get_all_count self' = 1.
Proof.
  apply (add_memory_on_uninitialized DemoStores.E0 DemoStores.never_built
           (lit "user likes coffee") []
           (DemoStores.vec_of (lit "user likes coffee")) ∅).
  - reflexivity.
  - vm_compute; reflexivity.
Defined.

Lemma add_memory_appends_and_persists_witness :
  exists self1 d1 self2 d2,
    add_memory DemoStores.E0 DemoStores.tea_store DemoStores.tea_upper [] ∅
      = (Ok self1, d1) /\
    get_all_count self1 = 2 /\
    add_memory DemoStores.E0 self1 DemoStores.tea_upper [] d1 = (Ok self2, d2) /\
    map (fun x : vec * Document => page_content (snd x)) (records self2)
      = [DemoStores.tea_upper; DemoStores.tea_upper; DemoStores.tea_upper] /\
    get_all_count self2 = 3.
Proof.
  destruct (add_memory_appends_and_persists DemoStores.E0 DemoStores.tea_store
              DemoStores.tea_upper [] (DemoStores.vec_of DemoStores.tea_upper) ∅
              ltac:(vm_compute; reflexivity))
    as (self1 & d1 & self2 & d2 & H1 & _ & _ & Hc1 & H2 & Hv2 & _ & Hc2).
  exists self1, d1, self2, d2.
  split; [exact H1|]. split; [exact Hc1|]. split; [exact H2|].
  split; [|exact Hc2].
  unfold records. rewrite Hv2. reflexivity.
Defined.


(** ** The short-term window *)

Lemma slice_from_neg {A} (n : nat) (l : list A) :
  0 < n -> slice_from (- Z.of_nat n) l = skipn (length l - n) l.
Proof.
  intros Hn. unfold slice_from.
  destruct (Z.ltb_spec (- Z.of_nat n) 0) as [_|H]; [|lia].
  f_equal. lia.
Qed.

(** For a positive round window [W], the window is the last [min m (2W)]
    messages of a transcript of [m] messages, in their order. *)
Lemma window_positive E (conv : list Message) :
  (0 < SHORT_TERM_WINDOW E)%Z ->
  let n := Z.to_nat (SHORT_TERM_WINDOW E * 2) in
  window E conv = skipn (length conv - Nat.min (length conv) n) conv /\
  length (window E conv) = Nat.min (length conv) n.
Proof.
  intros HW n. unfold window.
  destruct (Z.ltb_spec (SHORT_TERM_WINDOW E * 2) (Z.of_nat (length conv))) as [H|H].
  - replace (SHORT_TERM_WINDOW E * 2)%Z with (Z.of_nat n) by (unfold n; lia).
    rewrite slice_from_neg by (unfold n; lia).
    assert (Hmin : Nat.min (length conv) n = n) by (unfold n; lia).
    rewrite Hmin. split; [reflexivity|].
    rewrite length_skipn. unfold n. lia.
  - assert (Hmin : Nat.min (length conv) n = length conv) by (unfold n; lia).
    rewrite Hmin, Nat.sub_diag. now split.
Qed.

(** With the round window set to 0 the test [len(conversation) > 0] holds
    and the slice [conversation[-0:]] is the whole list. *)
Lemma window_zero E (conv : list Message) :
  SHORT_TERM_WINDOW E = 0%Z -> window E conv = conv.
Proof.
  intros HW. unfold window. rewrite HW.
  change (0 * 2)%Z with 0%Z. change (- 0)%Z with 0%Z.
  destruct (0 <? Z.of_nat (length conv))%Z; [|reflexivity].
  unfold slice_from. change (0 <? 0)%Z with false. cbv iota.
  rewrite Z.min_l by lia. reflexivity.
Qed.

(** Computing the window leaves the transcript whole: the state that
    [generate_response] returns holds every earlier message and the reply. *)
Lemma generate_response_ok E st w r :
  llm_invoke E (prompt_messages E st) = Ok r ->
  generate_response E st w =
    (Ok {| messages := messages st ++ [AIMessage r];
           retrieved_memories := retrieved_memories st;
           should_extract_memory := true |}, w).
Proof.
  intros Hr. unfold generate_response, bind, lift_result, ret. now rewrite Hr.
Qed.

Lemma generate_response_raise E st w e :
  llm_invoke E (prompt_messages E st) = Raise e ->
  generate_response E st w = (Raise e, w).
Proof.
  intros Hr. unfold generate_response, bind, lift_result. now rewrite Hr.
Qed.

(** C5 at round window 0: a transcript of three turns is passed whole to the
    model, where the claim gives [min 3 (2*0) = 0] turns; at round window 1
    the same transcript is cut to its last two turns. *)
Theorem window_round_zero_keeps_all :
  SHORT_TERM_WINDOW DemoTurns.E_W0 = 0%Z /\
  window DemoTurns.E_W0 DemoTurns.three_turns = DemoTurns.three_turns /\
  length (window DemoTurns.E_W0 DemoTurns.three_turns) = 3 /\
  Nat.min (length DemoTurns.three_turns) (2 * 0) = 0 /\
  window DemoTurns.E_W1 DemoTurns.three_turns
    = [AIMessage (lit "66"); HumanMessage (lit "what are you doing")].
Proof. repeat split; vm_compute; reflexivity. Qed.

(** ** The extraction flag *)

(** [extract_memory] either returns the state with the flag cleared, or
    raises [UnboundLocalError] because the extraction model call raised. *)
Lemma extract_memory_result E st w :
  (exists w',
     extract_memory E st w =
       (Ok {| messages := messages st;
              retrieved_memories := retrieved_memories st;
              should_extract_memory := false |}, w')) \/
  (extract_memory E st w = (Raise UnboundLocalError, w) /\
   exists h a e,
     has_exchange st h a /\ llm_invoke E (extract_prompt h a) = Raise e).
Proof.
  unfold extract_memory, has_exchange.
  destruct st as [msgs retr flag]; simpl.
  destruct flag; simpl; [|left; now exists w].
  destruct (Nat.ltb_spec (length msgs) 2) as [Hlt|Hge]; [left; now exists w|].
  destruct (last_exchange (rev msgs) [] []) as [h a].
  destruct (is_empty h) eqn:Hh; simpl; [left; now exists w|].
  destruct (is_empty a) eqn:Ha; simpl; [left; now exists w|].
  unfold bind, extract_try, try_except, ret.
  destruct (llm_invoke E (extract_prompt h a)) as [content|e] eqn:Hc.
  - left. destruct (extract_body E content w) as [[[]|e] w']; now exists w'.
  - right. split; [reflexivity|]. exists h, a, e. repeat split; auto.
Qed.

Lemma extract_memory_ok_inv E st w st' w' :
  extract_memory E st w = (Ok st', w') ->
  st' = {| messages := messages st;
           retrieved_memories := retrieved_memories st;
           should_extract_memory := false |}.
Proof.
  intros H. destruct (extract_memory_result E st w) as [[w1 H1]|[H1 _]];
    rewrite H1 in H; [now inversion H|discriminate].
Qed.


Lemma extract_memory_raises E st w h a e :
  has_exchange st h a ->
  llm_invoke E (extract_prompt h a) = Raise e ->
  extract_memory E st w = (Raise UnboundLocalError, w).
Proof.
  intros Hex Hr.
  destruct (extract_memory_result E st w) as [[w1 H1]|[H1 _]]; [|exact H1].
  exfalso. revert H1. unfold extract_memory.
  destruct Hex as (Hflag & Hlen & Hl & Hh & Ha).
  rewrite Hflag. simpl.
  destruct (Nat.ltb_spec (length (messages st)) 2) as [Hlt|_]; [lia|].
  rewrite Hl, Hh, Ha. simpl.
  unfold bind, extract_try. rewrite Hr. discriminate.
Qed.






(** ** Extraction *)

Lemma call_add_memory_ok E mem s v w :
  embed E s = Ok v ->
  let mem' := {| index_path := index_path mem;
                 vectorstore := Some (records mem ++ [(v, conversation_doc s [])]) |} in
  call_add_memory E mem s w =
    (Ok mem',
     {| disk := <[index_path mem := IndexDir (records mem')]> (disk w);
        _long_term_memory := Some mem';
        add_calls := add_calls w ++ [s] |}).
Proof.
  intros Hv mem'.
  unfold call_add_memory, bind, modify, on_disk, ret. simpl.
  now rewrite (add_memory_ok E mem s [] v (disk w) Hv).
Qed.

Lemma call_add_memory_raise E mem s e w :
  embed E s = Raise e ->
  call_add_memory E mem s w =
    (Raise e,
     {| disk := disk w;
        _long_term_memory := _long_term_memory w;
        add_calls := add_calls w ++ [s] |}).
Proof.
  intros Hv.
  unfold call_add_memory, bind, modify, on_disk. simpl.
  now rewrite (add_memory_raise E mem s [] e (disk w) Hv).
Qed.




(** When every accepted fact can be embedded, the loop makes one call per
    accepted fact and each call appends one record. *)
Lemma add_facts_ok E facts : forall mem w,
  Forall (fun s => is_ok (embed E s) = true) (omap accepted facts) ->
  exists mem' w',
    add_facts E mem facts w = (Ok tt, w') /\
    add_calls w' = add_calls w ++ omap accepted facts /\
    index_path mem' = index_path mem /\
    texts (records mem') = texts (records mem) ++ omap accepted facts /\
    (omap accepted facts = [] -> w' = w /\ mem' = mem) /\
    (omap accepted facts <> [] ->
       _long_term_memory w' = Some mem' /\
       disk w' !! index_path mem = Some (IndexDir (records mem'))).
Proof.
  induction facts as [|fact facts IH]; intros mem w Hemb; simpl in *.
  - exists mem, w. rewrite !app_nil_r. repeat split; congruence.
  - destruct (accepted fact) as [s|]; [|now apply IH].
    apply Forall_cons in Hemb. destruct Hemb as [Hs Hemb].
    destruct (embed E s) as [v|e] eqn:Hv; [|discriminate].
    unfold bind. rewrite (call_add_memory_ok E mem s v w Hv).
    match goal with |- context [add_facts E ?m facts ?w1] =>
      destruct (IH m w1 Hemb)
        as (mem' & w' & Hrun & Hlog & Hpath & Htexts & Hnil & Hcons)
    end.
    exists mem', w'. simpl in *.
    split; [exact Hrun|]. split; [rewrite Hlog, <- app_assoc; reflexivity|].
    split; [exact Hpath|].
    split.
    { rewrite Htexts. unfold texts, records at 1; simpl.
      rewrite map_app, <- app_assoc. reflexivity. }
    split; [discriminate|].
    intros _.
    destruct (omap accepted facts) as [|s' l'] eqn:Hl.
    + destruct (Hnil eq_refl) as [-> ->]. simpl.
      split; [reflexivity|apply lookup_insert_eq].
    + apply Hcons. discriminate.
Qed.

Lemma _get_memory_cached E w mem :
  _long_term_memory w = Some mem -> _get_memory E w = (Ok mem, w).
Proof. intros H. unfold _get_memory. now rewrite H. Qed.

Lemma _get_memory_log E w : add_calls (snd (_get_memory E w)) = add_calls w.
Proof.
  unfold _get_memory. destruct (_long_term_memory w); [reflexivity|].
  unfold bind, on_disk, modify, ret.
  destruct (LongTermMemory_init E (FAISS_INDEX_PATH E) (disk w)) as [[m|e] d];
    reflexivity.
Qed.

Lemma extract_memory_body E st w h a content :
  has_exchange st h a ->
  llm_invoke E (extract_prompt h a) = Ok content ->
  extract_memory E st w =
    (Ok {| messages := messages st;
           retrieved_memories := retrieved_memories st;
           should_extract_memory := false |},
     snd (extract_body E content w)).
Proof.
  intros (Hflag & Hlen & Hex & Hh & Ha) Hc. unfold extract_memory.
  rewrite Hflag. simpl.
  destruct (Nat.ltb_spec (length (messages st)) 2) as [Hlt|_]; [lia|].
  rewrite Hex, Hh, Ha. simpl.
  unfold bind, extract_try, try_except, ret. rewrite Hc.
  destruct (extract_body E content w) as [[[]|e] w']; reflexivity.
Qed.

Lemma extract_body_adds E content w facts mem w1 :
  json_loads E (unfence (strip content)) = Some (JList facts) ->
  _get_memory E w = (Ok mem, w1) ->
  extract_body E content w = add_facts E mem facts w1.
Proof.
  intros Hj Hm. unfold extract_body, bind.
  now rewrite Hj, Hm.
Qed.

Lemma extract_body_no_array E content w :
  no_array content (json_loads E) ->
  snd (extract_body E content w) = w.
Proof.
  unfold no_array, extract_body.
  destruct (json_loads E (unfence (strip content))) as [[]|]; try reflexivity.
  contradiction.
Qed.



(** What a turn whose extraction answer parses to an array does to the
    memory, when every accepted fact can be embedded. *)
Lemma extract_memory_adds E st w h a content facts mem w1 :
  has_exchange st h a ->
  llm_invoke E (extract_prompt h a) = Ok content ->
  json_loads E (unfence (strip content)) = Some (JList facts) ->
  _get_memory E w = (Ok mem, w1) ->
  Forall (fun s => is_ok (embed E s) = true) (omap accepted facts) ->
  exists mem',
    add_calls (snd (extract_memory E st w)) = add_calls w ++ omap accepted facts /\
    texts (records mem') = texts (records mem) ++ omap accepted facts /\
    get_all_count mem' = get_all_count mem + length (omap accepted facts) /\
    (omap accepted facts <> [] ->
       _long_term_memory (snd (extract_memory E st w)) = Some mem' /\
       disk (snd (extract_memory E st w)) !! index_path mem
         = Some (IndexDir (records mem'))).
Proof.
  intros Hex Hc Hj Hm Hemb.
  rewrite (extract_memory_body E st w h a content Hex Hc). simpl.
  rewrite (extract_body_adds E content w facts mem w1 Hj Hm).
  destruct (add_facts_ok E facts mem w1 Hemb)
    as (mem' & w' & Hrun & Hlog & _ & Htexts & _ & Hcons).
  rewrite Hrun. simpl. exists mem'.
  pose proof (_get_memory_log E w) as Hl. rewrite Hm in Hl. simpl in Hl.
  split; [now rewrite Hlog, Hl|]. split; [exact Htexts|]. split; [|exact Hcons].
  rewrite !get_all_count_records.
  apply (f_equal length) in Htexts. unfold texts in Htexts.
  now rewrite length_app, !length_map in Htexts.
Qed.

(** The calls made by the loop are the accepted facts up to and including
    the first one whose [add_memory] raises. *)
Lemma add_facts_stops E facts : forall pre s post e mem w,
  omap accepted facts = pre ++ s :: post ->
  Forall (fun t => is_ok (embed E t) = true) pre ->
  embed E s = Raise e ->
  exists mem' w',
    add_facts E mem facts w = (Raise e, w') /\
    add_calls w' = add_calls w ++ pre ++ [s] /\
    texts (records mem') = texts (records mem) ++ pre /\
    (pre = [] ->
       mem' = mem /\ disk w' = disk w /\
       _long_term_memory w' = _long_term_memory w) /\
    (pre <> [] ->
       _long_term_memory w' = Some mem' /\
       disk w' !! index_path mem = Some (IndexDir (records mem'))).
Proof.
  induction facts as [|fact facts IH]; intros pre s post e mem w Hsplit Hpre Hs.
  - destruct pre; discriminate.
  - change (omap accepted (fact :: facts))
      with (match accepted fact with
            | Some y => y :: omap accepted facts
            | None => omap accepted facts
            end) in Hsplit.
    cbn [add_facts].
    destruct (accepted fact) as [t|]; [|now apply (IH pre s post)].
    destruct pre as [|p pre].
    + simpl in Hsplit. inversion Hsplit; subst t.
      unfold bind. rewrite (call_add_memory_raise E mem s e w Hs).
      exists mem. eexists. split; [reflexivity|]. simpl.
      rewrite app_nil_r. repeat split; congruence.
    + simpl in Hsplit. inversion Hsplit; subst t.
      apply Forall_cons in Hpre. destruct Hpre as [Hp Hpre].
      destruct (embed E p) as [v|e0] eqn:Hv; [|discriminate].
      unfold bind. rewrite (call_add_memory_ok E mem p v w Hv).
      match goal with |- context [add_facts E ?m facts ?w1] =>
        destruct (IH pre s post e m w1 H1 Hpre Hs)
          as (mem' & w' & Hrun & Hlog & Htexts & Hnil & Hcons)
      end.
      exists mem', w'. simpl in *.
      split; [exact Hrun|].
      split; [rewrite Hlog, <- app_assoc; reflexivity|].
      split.
      { rewrite Htexts. unfold texts, records at 1; simpl.
        rewrite map_app, <- app_assoc. reflexivity. }
      split; [discriminate|]. intros _.
      destruct pre as [|p' pre'].
      * destruct (Hnil eq_refl) as (-> & Hd & Hg). rewrite Hd, Hg. simpl.
        split; [reflexivity|apply lookup_insert_eq].
      * apply Hcons. discriminate.
Qed.

Lemma extract_memory_stops E st w h a content facts mem w1 pre s post e :
  has_exchange st h a ->
  llm_invoke E (extract_prompt h a) = Ok content ->
  json_loads E (unfence (strip content)) = Some (JList facts) ->
  _get_memory E w = (Ok mem, w1) ->
  omap accepted facts = pre ++ s :: post ->
  Forall (fun t => is_ok (embed E t) = true) pre ->
  embed E s = Raise e ->
  exists st' w' mem',
    extract_memory E st w = (Ok st', w') /\
    add_calls w' = add_calls w ++ pre ++ [s] /\
    texts (records mem') = texts (records mem) ++ pre /\
    (pre <> [] ->
       _long_term_memory w' = Some mem' /\
       disk w' !! index_path mem = Some (IndexDir (records mem'))).
Proof.
  intros Hex Hc Hj Hm Hsplit Hpre Hs.
  rewrite (extract_memory_body E st w h a content Hex Hc).
  rewrite (extract_body_adds E content w facts mem w1 Hj Hm).
  destruct (add_facts_stops E facts pre s post e mem w1 Hsplit Hpre Hs)
    as (mem' & w' & Hrun & Hlog & Htexts & _ & Hcons).
  rewrite Hrun. simpl. eexists. exists w', mem'.
  split; [reflexivity|].
  pose proof (_get_memory_log E w) as Hl. rewrite Hm in Hl. simpl in Hl.
  split; [now rewrite Hlog, Hl|]. split; [exact Htexts|exact Hcons].
Qed.




(** *** The fence around the answer *)

Lemma startswith_app p s : startswith p (p ++ s) = true.
Proof.
  induction p as [|c p IH]; simpl; [reflexivity|].
  now rewrite N.eqb_refl, IH.
Qed.

Lemma find_after_nl pre rest :
  nl ∉ pre -> find_after [nl] (pre ++ nl :: rest) = Some rest.
Proof.
  induction pre as [|c pre IH]; intros Hnl.
  - reflexivity.
  - apply not_elem_of_cons in Hnl. destruct Hnl as [Hc Hpre].
    change ((c :: pre) ++ nl :: rest) with (c :: (pre ++ nl :: rest)).
    cbn [find_after startswith].
    destruct (N.eqb_spec nl c) as [Heq|_]; [congruence|].
    cbn [andb]. now apply IH.
Qed.

Lemma rfind_before_fence body : rfind_before fence (body ++ fence) = Some body.
Proof.
  induction body as [|c body IH].
  - reflexivity.
  - change ((c :: body) ++ fence) with (c :: (body ++ fence)).
    cbn [rfind_before]. now rewrite IH.
Qed.

Lemma unfence_plain c : startswith fence c = false -> unfence c = c.
Proof. intros H. unfold unfence. now rewrite H. Qed.

Lemma unfence_fenced info body :
  nl ∉ info -> unfence (fence ++ info ++ [nl] ++ body ++ fence) = strip body.
Proof.
  intros Hnl. unfold unfence. rewrite startswith_app.
  unfold split1_last. rewrite app_assoc.
  change ([nl] ++ body ++ fence) with (nl :: (body ++ fence)).
  rewrite find_after_nl.
  - unfold rsplit1_first. now rewrite rfind_before_fence.
  - intros Hin. apply elem_of_app in Hin. destruct Hin as [Hin|Hin]; [|tauto].
    unfold fence in Hin. rewrite !elem_of_cons in Hin.
    unfold nl, backtick in Hin.
    destruct Hin as [H|[H|[H|H]]]; try discriminate. inversion H.
Qed.

Lemma accepted_strings facts :
  omap accepted (map JStr facts) = filter (fun s : str => 5 < length s) facts.
Proof.
  induction facts as [|s facts IH]; [reflexivity|].
  change (omap accepted (map JStr (s :: facts)))
    with (match accepted (JStr s) with
          | Some y => y :: omap accepted (map JStr facts)
          | None => omap accepted (map JStr facts)
          end).
  rewrite filter_cons, IH. cbn [accepted].
  destruct (Nat.ltb_spec 5 (length s)) as [Hlt|Hge].
  - now rewrite decide_True by exact Hlt.
  - now rewrite decide_False by lia.
Qed.

Lemma extract_memory_no_array E st w h a content :
  has_exchange st h a ->
  llm_invoke E (extract_prompt h a) = Ok content ->
  no_array content (json_loads E) ->
  extract_memory E st w =
    (Ok {| messages := messages st;
           retrieved_memories := retrieved_memories st;
           should_extract_memory := false |}, w).
Proof.
  intros Hex Hc Hno.
  rewrite (extract_memory_body E st w h a content Hex Hc).
  now rewrite (extract_body_no_array E content w Hno).
Qed.

Lemma extract_memory_returns_on_answer E st w h a content :
  last_exchange (rev (messages st)) [] [] = (h, a) ->
  llm_invoke E (extract_prompt h a) = Ok content ->
  exists st' w', extract_memory E st w = (Ok st', w').
Proof.
  intros Hl Hc.
  destruct (extract_memory_result E st w)
    as [[w' H]|[_ (h' & a' & e & Hex & Hr)]].
  - eexists; exists w'; exact H.
  - destruct Hex as (_ & _ & Hl' & _). rewrite Hl in Hl'.
    inversion Hl'; subst. rewrite Hc in Hr. discriminate.
Qed.

(** C3, as the code has it, for an extraction call that answers: for every
    answer of the model [extract_memory] returns without raising; an answer
    that does not start with a fence is parsed as it is, and from one that
    does, the opening fence line and the closing fence are removed before
    parsing; when the text is no JSON, or the JSON is no array, nothing is
    added and the world is as it was; a fenced JSON array of strings yields
    one [add_memory] per string longer than 5 characters, in order, and
    nothing for the shorter ones. *)
Theorem extraction_tolerates_bad_answers E st w :
  (forall h a content,
     last_exchange (rev (messages st)) [] [] = (h, a) ->
     llm_invoke E (extract_prompt h a) = Ok content ->
     exists st' w', extract_memory E st w = (Ok st', w')) /\
  (forall c, startswith fence c = false -> unfence c = c) /\
  (forall info body,
     nl ∉ info -> unfence (fence ++ info ++ [nl] ++ body ++ fence) = strip body) /\
  (forall h a content,
     has_exchange st h a ->
     llm_invoke E (extract_prompt h a) = Ok content ->
     no_array content (json_loads E) ->
     extract_memory E st w =
       (Ok {| messages := messages st;
              retrieved_memories := retrieved_memories st;
              should_extract_memory := false |}, w)) /\
  (forall h a content info body facts mem w1,
     has_exchange st h a ->
     llm_invoke E (extract_prompt h a) = Ok content ->
     strip content = fence ++ info ++ [nl] ++ body ++ fence ->
     nl ∉ info ->
     json_loads E (strip body) = Some (JList (map JStr facts)) ->
     _get_memory E w = (Ok mem, w1) ->
     Forall (fun s => is_ok (embed E s) = true)
            (filter (fun s : str => 5 < length s) facts) ->
     exists mem',
       add_calls (snd (extract_memory E st w))
         = add_calls w ++ filter (fun s : str => 5 < length s) facts /\
       texts (records mem')
         = texts (records mem) ++ filter (fun s : str => 5 < length s) facts /\
       (filter (fun s : str => 5 < length s) facts <> [] ->
          _long_term_memory (snd (extract_memory E st w)) = Some mem')).
Proof.
  split; [|split; [|split; [|split]]].
  - apply extract_memory_returns_on_answer.
  - apply unfence_plain.
  - apply unfence_fenced.
  - apply extract_memory_no_array.
  - intros h a content info body facts mem w1 Hex Hc Hfence Hnl Hj Hm Hemb.
    rewrite <- accepted_strings in *.
    assert (Hj' : json_loads E (unfence (strip content)) = Some (JList (map JStr facts))).
    { rewrite Hfence, unfence_fenced by exact Hnl. exact Hj. }
    destruct (extract_memory_adds E st w h a content _ mem w1 Hex Hc Hj' Hm Hemb)
      as (mem' & Hlog & Htexts & _ & Hcons).
    exists mem'. split; [exact Hlog|]. split; [exact Htexts|].
    intros Hne. now apply Hcons.
Qed.

Lemma extraction_tolerates_bad_answers_witness :
  (exists mem',
     add_calls (snd (extract_memory DemoTurns.E_coffee DemoTurns.mochi_exchange
                       Demo.empty_world))
       = add_calls Demo.empty_world
           ++ filter (fun s : str => 5 < length s) [lit "user likes coffee"] /\
     texts (records mem') = [lit "user likes coffee"]) /\
  filter (fun s : str => 5 < length s) [lit "user likes coffee"]
    = [lit "user likes coffee"] /\
  extract_memory DemoTurns.E_object DemoTurns.mochi_exchange Demo.empty_world
    = (Ok {| messages := messages DemoTurns.mochi_exchange;
             retrieved_memories := retrieved_memories DemoTurns.mochi_exchange;
             should_extract_memory := false |}, Demo.empty_world).
Proof.
  split; [|split; [vm_compute; reflexivity|]].
  - destruct (proj2 (proj2 (proj2 (proj2
                (extraction_tolerates_bad_answers DemoTurns.E_coffee
                   DemoTurns.mochi_exchange Demo.empty_world))))
                (lit "my cat is named Mochi") (lit "aww what breed")
                (Demo.fenced Demo.json_coffee) (lit "json")
                (Demo.json_coffee ++ [nl]) [lit "user likes coffee"]
                {| index_path := lit "raymond_memory_index"; vectorstore := None |}
                DemoTurns.built_world)
      as (mem' & Hlog & Htexts & _).
    + repeat split; vm_compute; reflexivity.
    + vm_compute; reflexivity.
    + vm_compute; reflexivity.
    + intros Hin. vm_compute in Hin.
      repeat (apply elem_of_cons in Hin; destruct Hin as [Hin|Hin];
              [discriminate|]).
      inversion Hin.
    + vm_compute; reflexivity.
    + vm_compute; reflexivity.
    + vm_compute. repeat constructor.
    + exists mem'. split; [exact Hlog|exact Htexts].
  - apply (proj1 (proj2 (proj2 (proj2
             (extraction_tolerates_bad_answers DemoTurns.E_object
                DemoTurns.mochi_exchange Demo.empty_world))))
             (lit "my cat is named Mochi") (lit "aww what breed")
             Demo.json_object).
    + repeat split; vm_compute; reflexivity.
    + vm_compute; reflexivity.
    + vm_compute. constructor.
Defined.

(** C3 fails for a fenced array whose string is short: the model answers
    [["hi"]] inside a fence, the text between the fences parses to that
    array, and no fact is added. *)
Lemma fenced_short_fact_is_dropped :
  llm_invoke DemoTurns.E_hi
    (extract_prompt (lit "my cat is named Mochi") (lit "aww what breed"))
    = Ok (Demo.fenced Demo.json_hi) /\
  json_loads DemoTurns.E_hi (unfence (strip (Demo.fenced Demo.json_hi)))
    = Some (JList [JStr (lit "hi")]) /\
  add_calls (snd (extract_memory DemoTurns.E_hi DemoTurns.mochi_exchange
                    Demo.empty_world)) = [] /\
  snd (extract_memory DemoTurns.E_hi DemoTurns.mochi_exchange Demo.empty_world)
    = DemoTurns.built_world /\
  add_calls (snd (extract_memory DemoTurns.E_hi DemoTurns.mochi_exchange
                    Demo.empty_world)) <> [lit "hi"].
Proof.
  split; [vm_compute; reflexivity|].
  split; [vm_compute; reflexivity|].
  split; [vm_compute; reflexivity|].
  split; [vm_compute; reflexivity|].
  vm_compute. discriminate.
Qed.

(** ** Retrieval *)

Lemma retrieve_memories_messages E st w s1 w1 :
  retrieve_memories E st w = (Ok s1, w1) ->
  messages s1 = messages st /\
  should_extract_memory s1 = should_extract_memory st.
Proof.
  unfold retrieve_memories.
  destruct (is_empty _).
  - intros H; inversion H; now subst.
  - unfold bind, lift_result, ret.
    destruct (_get_memory E w) as [[mem|e] w2]; [|discriminate].
    destruct (search E mem _ _); [|discriminate].
    intros H; inversion H; now subst.
Qed.

Lemma retrieve_memories_no_query E st w :
  is_empty (first_human (rev (messages st))) = true ->
  retrieve_memories E st w =
    (Ok {| messages := messages st;
           retrieved_memories := [];
           should_extract_memory := should_extract_memory st |}, w).
Proof. intros H. unfold retrieve_memories. now rewrite H. Qed.









(** * Further properties of the code *)

(** ** [agent/memory.py] *)

Lemma map_result_app_raise {A B} (f : A -> result B) pre x post ys e :
  map_result f pre = Ok ys -> f x = Raise e ->
  map_result f (pre ++ x :: post) = Raise e.
Proof.
  revert ys; induction pre as [|a pre IH]; simpl; intros ys Hpre Hx.
  - now rewrite Hx.
  - destruct (f a); [|discriminate].
    destruct (map_result f pre) as [zs|]; [|discriminate].
    now rewrite (IH zs eq_refl Hx).
Qed.

Lemma seed_document_shape mem doc :
  seed_document mem = Ok doc ->
  exists entry,
    mem = JDict entry /\
    dict_get (lit "fact") entry = Some (JStr (page_content doc)) /\
    source (metadata doc) = lit "initial" /\
    topic (metadata doc) = default (JStr []) (dict_get (lit "topic") entry) /\
    confidence (metadata doc)
      = Some (default (JStr (lit "medium")) (dict_get (lit "confidence") entry)).
Proof.
  unfold seed_document.
  destruct mem as [| | | | |items]; try discriminate.
  destruct (dict_get (lit "fact") items) as [[| | |fact| |]|] eqn:Hf;
    try discriminate.
  intros H; inversion H; subst; simpl.
  exists items. repeat split; assumption.
Qed.

Lemma map_result_Forall2 {A B} (f : A -> result B) l ys :
  map_result f l = Ok ys -> Forall2 (fun x y => f x = Ok y) l ys.
Proof.
  revert ys; induction l as [|x l IH]; simpl; intros ys H.
  - inversion H. constructor.
  - destruct (f x) as [y|] eqn:Hy; [|discriminate].
    destruct (map_result f l) as [zs|]; [|discriminate].
    inversion H; subst. constructor; [exact Hy|now apply IH].
Qed.

(** X1: when the seed file is read without error, there is one document per
    entry of its ["memories"] list, in the order of the file; each has the
    entry's ["fact"] as text, is marked [source = "initial"], and takes the
    entry's topic and confidence, [""] and ["medium"] when the entry has
    none.  Reading the file writes nothing. *)
Theorem seed_documents_follow_file E d content items mems docs :
  d !! MEMORIES_FILE E = Some (TextFile content) ->
  json_loads E content = Some (JDict items) ->
  dict_get (lit "memories") items = Some (JList mems) ->
  fst (_load_initial_memories E d) = Ok docs ->
  snd (_load_initial_memories E d) = d /\
  length docs = length mems /\
  Forall2 (fun mem doc =>
             exists entry,
               mem = JDict entry /\
               dict_get (lit "fact") entry = Some (JStr (page_content doc)) /\
               source (metadata doc) = lit "initial" /\
               topic (metadata doc)
                 = default (JStr []) (dict_get (lit "topic") entry) /\
               confidence (metadata doc)
                 = Some (default (JStr (lit "medium"))
                           (dict_get (lit "confidence") entry)))
          mems docs.
Proof.
  intros Hfile Hj Hm Hdocs. split; [apply _load_initial_memories_disk|].
  unfold _load_initial_memories in Hdocs. rewrite Hfile, Hj, Hm in Hdocs.
  simpl in Hdocs. split; [now apply map_result_length in Hdocs|].
  apply map_result_Forall2 in Hdocs.
  eapply Forall2_impl; [exact Hdocs|].
  intros mem doc Hdoc. now apply seed_document_shape.
Qed.

Lemma seed_documents_follow_file_witness :
  snd (_load_initial_memories DemoStores.E0 DemoStores.disk_one_seed)
    = DemoStores.disk_one_seed /\
  length [DemoStores.seed_doc] = 1.
Proof.
  destruct (seed_documents_follow_file DemoStores.E0 DemoStores.disk_one_seed
              Demo.json_one_seed
              [(lit "memories",
                JList [JDict [(lit "fact", JStr (lit "Raymond studies in the US"))]])]
              [JDict [(lit "fact", JStr (lit "Raymond studies in the US"))]]
              [DemoStores.seed_doc])
    as (Hdisk & Hlen & _); try (vm_compute; reflexivity).
  split; [exact Hdisk|exact Hlen].
Defined.

Lemma LongTermMemory_init_raise_disk E path d e d' :
  LongTermMemory_init E path d = (Raise e, d') -> d' = d.
Proof.
  unfold LongTermMemory_init, bind, lift_result.
  destruct (embeddings_ctor E) as [[]|e0]; [|intros H; now inversion H].
  unfold _load_or_create.
  destruct (d !! path) as [f|] eqn:Hp.
  - unfold bind, load_local. rewrite Hp.
    destruct f; intros H; inversion H; reflexivity.
  - unfold bind.
    pose proof (_load_initial_memories_disk E d) as Hd.
    destruct (_load_initial_memories E d) as [[docs|e0] d0]; simpl in Hd; subst d0;
      [|intros H; now inversion H].
    destruct docs as [|doc docs]; [discriminate|].
    unfold lift_result, save_local, modify, ret.
    destruct (from_documents E (doc :: docs)); intros H; now inversion H.
Qed.

(** X2: one seed entry without a ["fact"] key makes the whole start-up fail
    with [KeyError]: no store is built from the entries before it and
    nothing is written to the disk. *)
Theorem seed_without_fact_aborts_startup E path d content items pre docs entry post :
  embeddings_ctor E = Ok tt ->
  d !! path = None ->
  d !! MEMORIES_FILE E = Some (TextFile content) ->
  json_loads E content = Some (JDict items) ->
  dict_get (lit "memories") items = Some (JList (pre ++ JDict entry :: post)) ->
  map_result seed_document pre = Ok docs ->
  dict_get (lit "fact") entry = None ->
  LongTermMemory_init E path d = (Raise KeyError, d).
Proof.
  intros Hc Hp Hfile Hj Hm Hpre Hentry.
  assert (Hload : _load_initial_memories E d = (Raise KeyError, d)).
  { unfold _load_initial_memories. rewrite Hfile, Hj, Hm. simpl.
    rewrite (map_result_app_raise seed_document pre (JDict entry) post docs KeyError);
      [reflexivity|exact Hpre|].
    unfold seed_document. now rewrite Hentry. }
  unfold LongTermMemory_init, bind, lift_result. rewrite Hc.
  unfold _load_or_create. rewrite Hp. unfold bind. now rewrite Hload.
Qed.

Lemma seed_without_fact_aborts_startup_witness :
  LongTermMemory_init DemoExtra.E_bad_seed DemoStores.path DemoExtra.disk_bad_seed
    = (Raise KeyError, DemoExtra.disk_bad_seed).
Proof.
  apply (seed_without_fact_aborts_startup DemoExtra.E_bad_seed DemoStores.path
           DemoExtra.disk_bad_seed DemoExtra.json_bad_seed
           [(lit "memories",
             JList [ JDict [(lit "fact", JStr (lit "Raymond studies in the US"))];
                     JDict [(lit "topic", JStr (lit "food"))] ])]
           [JDict [(lit "fact", JStr (lit "Raymond studies in the US"))]]
           [DemoStores.seed_doc]
           [(lit "topic", JStr (lit "food"))] []);
    vm_compute; reflexivity.
Defined.

(** X3: when something exists at the index path, start-up never writes to
    the disk and never reads the seed file: a saved index is loaded as it
    is, anything else makes start-up raise [StoreCorruptError] and is left in
    place. *)
Theorem startup_with_existing_path E path d f :
  d !! path = Some f ->
  snd (LongTermMemory_init E path d) = d /\
  (embeddings_ctor E = Ok tt ->
   fst (LongTermMemory_init E path d) =
     match f with
     | IndexDir store => Ok {| index_path := path; vectorstore := Some store |}
     | _ => Raise StoreCorruptError
     end).
Proof.
  intros Hp. split.
  - unfold LongTermMemory_init, bind, lift_result.
    destruct (embeddings_ctor E) as [[]|e]; [|reflexivity].
    unfold _load_or_create. rewrite Hp. unfold bind, load_local. rewrite Hp.
    destruct f; reflexivity.
  - intros Hc. unfold LongTermMemory_init, bind, lift_result. rewrite Hc.
    unfold _load_or_create. rewrite Hp. unfold bind, load_local. rewrite Hp.
    destruct f; reflexivity.
Qed.

Lemma startup_with_existing_path_witness :
  snd (LongTermMemory_init DemoStores.E0 DemoStores.path
         (<[DemoStores.path := Garbage]> DemoStores.disk_one_seed))
    = <[DemoStores.path := Garbage]> DemoStores.disk_one_seed /\
  (embeddings_ctor DemoStores.E0 = Ok tt ->
   fst (LongTermMemory_init DemoStores.E0 DemoStores.path
          (<[DemoStores.path := Garbage]> DemoStores.disk_one_seed))
     = Raise StoreCorruptError).
Proof.
  apply (startup_with_existing_path DemoStores.E0 DemoStores.path
           (<[DemoStores.path := Garbage]> DemoStores.disk_one_seed) Garbage).
  apply lookup_insert_eq.
Defined.

(** X5: [add_memory] writes to the index path of its store and to no other
    path of the disk, whether it returns or raises. *)
Theorem add_memory_touches_only_its_path E self fact tp d p :
  p <> index_path self ->
  snd (add_memory E self fact tp d) !! p = d !! p.
Proof.
  intros Hp. destruct (embed E fact) as [v|e] eqn:Hv.
  - rewrite (add_memory_ok E self fact tp v d Hv). simpl.
    apply lookup_insert_ne. congruence.
  - now rewrite (add_memory_raise E self fact tp e d Hv).
Qed.

Lemma add_memory_touches_only_its_path_witness :
  snd (add_memory DemoStores.E0 DemoStores.never_built DemoStores.mochi []
         DemoStores.disk_one_seed) !! MEMORIES_FILE DemoStores.E0
  = DemoStores.disk_one_seed !! MEMORIES_FILE DemoStores.E0.
Proof.
  apply (add_memory_touches_only_its_path DemoStores.E0 DemoStores.never_built
           DemoStores.mochi [] DemoStores.disk_one_seed
           (MEMORIES_FILE DemoStores.E0)).
  vm_compute. discriminate.
Defined.

(** X6: a fact that was just added is found by every search that asks for
    at least as many results as the store holds: such a search returns the
    texts of all records, each once, and among them the new fact. *)
Theorem added_fact_is_found E self fact tp d self' d' query q k :
  add_memory E self fact tp d = (Ok self', d') ->
  embed E query = Ok q ->
  (Z.of_nat (get_all_count self') <= k)%Z ->
  exists found,
    search E self' query k = Ok found /\
    found ≡ₚ texts (records self') /\
    fact ∈ found.
Proof.
  intros Hadd Hq Hk.
  destruct (add_memory_inv E self fact tp d self' d' Hadd) as (v & Hv & -> & ->).
  set (store := records self ++ [(v, conversation_doc fact tp)]) in *.
  assert (Hlen : length store = S (length (records self))).
  { unfold store. rewrite length_app. simpl. lia. }
  assert (Hcount : get_all_count
                     {| index_path := index_path self; vectorstore := Some store |}
                   = length store) by reflexivity.
  rewrite Hcount in Hk.
  exists (texts (nearest_first E q store)).
  assert (Hperm : texts (nearest_first E q store) ≡ₚ texts store).
  { unfold texts. now rewrite (nearest_first_perm E q store). }
  split; [|split].
  - unfold search, similarity_search. simpl. rewrite Hq.
    destruct (Z.leb_spec k 0) as [Hle|_]; [lia|].
    rewrite take_ge; [now rewrite map_map|].
    rewrite nearest_first_length. lia.
  - exact Hperm.
  - rewrite Hperm. unfold texts, store. rewrite map_app.
    apply elem_of_app. right. simpl. now left.
Qed.

Lemma added_fact_is_found_witness :
  exists found,
    search DemoStores.E0 DemoStores.tea_store2 (lit "coffee") 5 = Ok found /\
    found ≡ₚ texts (records DemoStores.tea_store2) /\
    DemoStores.tea_lower ∈ found.
Proof.
  apply (added_fact_is_found DemoStores.E0 DemoStores.tea_store DemoStores.tea_lower
           [] ∅ DemoStores.tea_store2 DemoStores.tea_disk2 (lit "coffee")
           (DemoStores.vec_of (lit "coffee")) 5).
  - vm_compute; reflexivity.
  - vm_compute; reflexivity.
  - vm_compute. discriminate.
Defined.

(** ** [agent/graph.py]: the memory singleton and retrieval *)

Lemma LongTermMemory_init_index_path E path d m d' :
  LongTermMemory_init E path d = (Ok m, d') -> index_path m = path.
Proof.
  unfold LongTermMemory_init, bind, lift_result, ret.
  destruct (embeddings_ctor E) as [[]|e]; [|discriminate].
  destruct (_load_or_create E path d) as [[vs|e] d0]; [|discriminate].
  intros H; inversion H; reflexivity.
Qed.

Lemma _get_memory_ok_global E w m w1 :
  _get_memory E w = (Ok m, w1) -> _long_term_memory w1 = Some m.
Proof.
  unfold _get_memory. destruct (_long_term_memory w) as [m0|] eqn:Hg.
  - intros H; inversion H; subst. exact Hg.
  - unfold bind, on_disk, modify, ret.
    destruct (LongTermMemory_init E (FAISS_INDEX_PATH E) (disk w)) as [[m0|e] d];
      [|discriminate].
    intros H; inversion H; reflexivity.
Qed.

Lemma _get_memory_raise_world E w e w1 :
  _get_memory E w = (Raise e, w1) -> w1 = w /\ _long_term_memory w = None.
Proof.
  unfold _get_memory. destruct (_long_term_memory w) as [m0|] eqn:Hg;
    [discriminate|].
  unfold bind, on_disk, modify, ret.
  destruct (LongTermMemory_init E (FAISS_INDEX_PATH E) (disk w)) as [[m0|e0] d] eqn:Hi;
    [discriminate|].
  intros H; inversion H; subst.
  apply LongTermMemory_init_raise_disk in Hi. subst d.
  destruct w as [dk g l]; simpl in *. now subst g.
Qed.

(** X7: the memory object is built at most once: after a call of
    [_get_memory] that returns, the global holds the returned object and
    every later call returns that same object without touching the world;
    an object built by [_get_memory] lives at [FAISS_INDEX_PATH]; a call that
    raises leaves the world as it was, the global still unset, so the next
    call tries again. *)
Theorem memory_singleton_built_once E w :
  (forall m w1, _get_memory E w = (Ok m, w1) ->
     _long_term_memory w1 = Some m /\
     _get_memory E w1 = (Ok m, w1) /\
     add_calls w1 = add_calls w /\
     (_long_term_memory w = None -> index_path m = FAISS_INDEX_PATH E)) /\
  (forall e w1, _get_memory E w = (Raise e, w1) ->
     w1 = w /\ _long_term_memory w = None).
Proof.
  split.
  - intros m w1 H.
    pose proof (_get_memory_ok_global E w m w1 H) as Hg.
    split; [exact Hg|]. split; [now apply _get_memory_cached|].
    split; [pose proof (_get_memory_log E w) as Hl; now rewrite H in Hl|].
    intros Hnone. unfold _get_memory in H. rewrite Hnone in H.
    unfold bind, on_disk, modify, ret in H.
    destruct (LongTermMemory_init E (FAISS_INDEX_PATH E) (disk w)) as [[m0|e] d] eqn:Hi;
      [|discriminate].
    inversion H; subst.
    now apply (LongTermMemory_init_index_path E _ _ _ _ Hi).
  - apply _get_memory_raise_world.
Qed.

Lemma memory_singleton_built_once_witness :
  _long_term_memory DemoTurns.loaded_world = Some DemoStores.tea_store2 /\
  _get_memory DemoStores.E0 DemoTurns.loaded_world
    = (Ok DemoStores.tea_store2, DemoTurns.loaded_world) /\
  add_calls DemoTurns.loaded_world = add_calls DemoTurns.indexed_world /\
  (_long_term_memory DemoTurns.indexed_world = None ->
   index_path DemoStores.tea_store2 = FAISS_INDEX_PATH DemoStores.E0).
Proof.
  apply (proj1 (memory_singleton_built_once DemoStores.E0 DemoTurns.indexed_world)
           DemoStores.tea_store2 DemoTurns.loaded_world).
  vm_compute; reflexivity.
Defined.

Lemma search_bounded E mem query k found :
  search E mem query k = Ok found ->
  (Z.of_nat (length found) <= Z.max 0 k)%Z /\
  Forall (fun t => t ∈ texts (records mem)) found.
Proof.
  unfold search, records.
  destruct (vectorstore mem) as [store|]; simpl.
  - unfold similarity_search. destruct (embed E query) as [q|]; [|discriminate].
    destruct (Z.leb_spec k 0) as [Hle|Hlt]; [discriminate|].
    intros H; inversion H; subst. split.
    + rewrite !length_map, length_take. lia.
    + rewrite map_map. apply Forall_forall. intros t Ht.
      apply list_elem_of_fmap in Ht. destruct Ht as (x & -> & Hx).
      apply elem_of_take_1 in Hx.
      apply (proj1 (elem_of_nearest_first E q store x)) in Hx.
      unfold texts. apply list_elem_of_fmap. exists x. split; [reflexivity|exact Hx].
  - intros H; inversion H; subst. split; [simpl; lia|constructor].
Qed.

(** X8: when [retrieve_memories] returns, the retrieved list holds at most
    [LONG_TERM_TOP_K] texts (none when that is not positive), each the text
    of a record of the memory
    singleton; the transcript and the flag are untouched; and the list
    replaces whatever the state held before: the result does not depend on
    the old [retrieved_memories]. *)
Theorem retrieval_bounded_and_replacing E st w s1 w1 :
  retrieve_memories E st w = (Ok s1, w1) ->
  (Z.of_nat (length (retrieved_memories s1)) <= Z.max 0 (LONG_TERM_TOP_K E))%Z /\
  messages s1 = messages st /\
  should_extract_memory s1 = should_extract_memory st /\
  (forall old,
     retrieve_memories E {| messages := messages st;
                            retrieved_memories := old;
                            should_extract_memory := should_extract_memory st |} w
     = (Ok s1, w1)) /\
  (retrieved_memories s1 <> [] ->
   exists m, _long_term_memory w1 = Some m /\
             Forall (fun t => t ∈ texts (records m)) (retrieved_memories s1)).
Proof.
  intros H.
  destruct (retrieve_memories_messages E st w s1 w1 H) as [Hm Hf].
  unfold retrieve_memories in *. simpl.
  destruct (is_empty (first_human (rev (messages st)))).
  - inversion H; subst; simpl.
    split; [lia|]. repeat split; congruence.
  - unfold bind, lift_result, ret in *.
    destruct (_get_memory E w) as [[mem|e] w2] eqn:Hg; [|discriminate].
    destruct (search E mem _ _) as [found|e] eqn:Hs; [|discriminate].
    inversion H; subst; simpl.
    destruct (search_bounded E mem _ _ found Hs) as [Hlen Hall].
    split; [exact Hlen|]. repeat split.
    intros _. exists mem. split; [|exact Hall].
    now apply (_get_memory_ok_global E w).
Qed.

Lemma retrieval_bounded_and_replacing_witness :
  (Z.of_nat (length [DemoStores.tea_upper; DemoStores.tea_lower])
   <= Z.max 0 (LONG_TERM_TOP_K DemoStores.E0))%Z /\
  retrieve_memories DemoStores.E0
    {| messages := [HumanMessage (lit "do I like tea")];
       retrieved_memories := [lit "stale"];
       should_extract_memory := false |} DemoTurns.indexed_world
  = (Ok {| messages := [HumanMessage (lit "do I like tea")];
           retrieved_memories := [DemoStores.tea_upper; DemoStores.tea_lower];
           should_extract_memory := false |}, DemoTurns.loaded_world).
Proof.
  destruct (retrieval_bounded_and_replacing DemoStores.E0
              {| messages := [HumanMessage (lit "do I like tea")];
                 retrieved_memories := [];
                 should_extract_memory := false |} DemoTurns.indexed_world
              {| messages := [HumanMessage (lit "do I like tea")];
                 retrieved_memories := [DemoStores.tea_upper; DemoStores.tea_lower];
                 should_extract_memory := false |} DemoTurns.loaded_world)
    as (Hlen & _ & _ & Hold & _).
  - vm_compute; reflexivity.
  - split; [exact Hlen|]. exact (Hold [lit "stale"]).
Defined.

Lemma first_human_skip l1 l2 :
  Forall (fun m => is_human m = false) l1 ->
  first_human (l1 ++ l2) = first_human l2.
Proof.
  induction 1 as [|m l1 Hm _ IH]; simpl; [reflexivity|].
  destruct m; simpl in Hm; try discriminate; exact IH.
Qed.

(** X9: the text retrieval searches for is the content of the latest
    [HumanMessage] of the transcript, whatever follows it; a transcript with
    no [HumanMessage] gives the empty query, for which retrieval returns the
    empty list without building or asking the memory. *)
Theorem retrieval_query_is_latest_user_line E st w :
  (forall pre u post,
     messages st = pre ++ HumanMessage u :: post ->
     Forall (fun m => is_human m = false) post ->
     first_human (rev (messages st)) = u) /\
  (Forall (fun m => is_human m = false) (messages st) ->
   first_human (rev (messages st)) = [] /\
   retrieve_memories E st w =
     (Ok {| messages := messages st;
            retrieved_memories := [];
            should_extract_memory := should_extract_memory st |}, w)).
Proof.
  split.
  - intros pre u post -> Hpost.
    rewrite rev_app_distr. simpl. rewrite <- app_assoc. simpl.
    rewrite first_human_skip; [reflexivity|].
    apply Forall_forall. intros m Hm. apply list_elem_of_In, in_rev in Hm.
    rewrite Forall_forall in Hpost. apply Hpost. now apply list_elem_of_In.
  - intros Hnone.
    assert (Hq : first_human (rev (messages st)) = []).
    { rewrite <- (app_nil_r (rev (messages st))).
      rewrite first_human_skip; [reflexivity|].
      apply Forall_forall. intros m Hm. apply list_elem_of_In, in_rev in Hm.
      rewrite Forall_forall in Hnone. apply Hnone. now apply list_elem_of_In. }
    split; [exact Hq|]. apply retrieve_memories_no_query. now rewrite Hq.
Qed.

Lemma retrieval_query_is_latest_user_line_witness :
  first_human (rev DemoTurns.three_turns) = lit "what are you doing".
Proof.
  apply (proj1 (retrieval_query_is_latest_user_line DemoStores.E0
                  {| messages := DemoTurns.three_turns;
                     retrieved_memories := [];
                     should_extract_memory := false |} Demo.empty_world)
           [HumanMessage (lit "hello"); AIMessage (lit "66")]
           (lit "what are you doing") []).
  - reflexivity.
  - constructor.
Defined.

(** ** [agent/graph.py]: the prompt *)

Lemma last_drop {A} (l : list A) i : i < length l -> last (drop i l) = last l.
Proof.
  intros Hi. rewrite <- (take_drop i l) at 2. rewrite last_app.
  destruct (last (drop i l)) eqn:Hl; [reflexivity|].
  apply last_None in Hl. apply (f_equal length) in Hl.
  rewrite length_drop in Hl. simpl in Hl. lia.
Qed.

Lemma slice_from_suffix {A} start (l : list A) : slice_from start l `suffix_of` l.
Proof. unfold slice_from. apply suffix_drop. Qed.

(** X10: for every setting of the round window, the messages sent to the
    model are an unbroken tail of the transcript, in order; with a window of
    at least one round the tail ends with the last message of the
    transcript, so the prompt always ends with the line the user just
    wrote. *)
Theorem window_is_tail_of_transcript E st :
  window E (messages st) `suffix_of` messages st /\
  ((0 < SHORT_TERM_WINDOW E)%Z -> messages st <> [] ->
   last (window E (messages st)) = last (messages st) /\
   last (prompt_messages E st) = last (messages st)).
Proof.
  split.
  - unfold window. destruct (_ <? _)%Z; [apply slice_from_suffix|reflexivity].
  - intros HW Hne.
    assert (Hlen : 0 < length (messages st)).
    { destruct (messages st); [congruence|simpl; lia]. }
    destruct (window_positive E (messages st) HW) as [Hw _]. cbv zeta in Hw.
    assert (Hlast : last (window E (messages st)) = last (messages st)).
    { rewrite Hw. apply last_drop. lia. }
    split; [exact Hlast|].
    unfold prompt_messages. rewrite last_cons, last_app, Hlast.
    destruct (last (messages st)) eqn:Hl; [reflexivity|].
    apply last_None in Hl. congruence.
Qed.

Lemma window_is_tail_of_transcript_witness :
  last (window DemoTurns.E_W1 DemoTurns.three_turns) = last DemoTurns.three_turns /\
  last (prompt_messages DemoTurns.E_W1
          {| messages := DemoTurns.three_turns;
             retrieved_memories := [];
             should_extract_memory := false |})
    = last DemoTurns.three_turns.
Proof.
  apply (proj2 (window_is_tail_of_transcript DemoTurns.E_W1
                  {| messages := DemoTurns.three_turns;
                     retrieved_memories := [];
                     should_extract_memory := false |})).
  - vm_compute; reflexivity.
  - discriminate.
Defined.

(** X11: with a negative round window [W] the window is not the last
    messages but the transcript without its first [2|W|] messages: the test
    [len(conversation) > max_msgs] always holds and the slice starts at the
    positive index [-max_msgs]. *)
Theorem window_negative_drops_oldest E (conv : list Message) :
  (SHORT_TERM_WINDOW E < 0)%Z ->
  window E conv = drop (Z.to_nat (- (SHORT_TERM_WINDOW E * 2))) conv.
Proof.
  intros HW. unfold window.
  destruct (Z.ltb_spec (SHORT_TERM_WINDOW E * 2) (Z.of_nat (length conv)))
    as [_|H]; [|lia].
  unfold slice_from.
  destruct (Z.ltb_spec (- (SHORT_TERM_WINDOW E * 2)) 0) as [H|_]; [lia|].
  destruct (Z.le_gt_cases (- (SHORT_TERM_WINDOW E * 2)) (Z.of_nat (length conv)))
    as [Hle|Hgt].
  - now rewrite Z.min_l by exact Hle.
  - rewrite Z.min_r by lia. rewrite Nat2Z.id.
    rewrite !drop_ge; [reflexivity|lia|lia].
Qed.

Lemma window_negative_drops_oldest_witness :
  window DemoExtra.E_Wneg DemoTurns.three_turns
    = drop (Z.to_nat (- (SHORT_TERM_WINDOW DemoExtra.E_Wneg * 2)))
        DemoTurns.three_turns.
Proof.
  apply (window_negative_drops_oldest DemoExtra.E_Wneg DemoTurns.three_turns).
  vm_compute; reflexivity.
Defined.

Lemma join_contains sep (f : str -> str) l m :
  m ∈ l -> exists before after, join sep (map f l) = before ++ f m ++ after.
Proof.
  induction l as [|x l IH]; intros Hm; [inversion Hm|].
  apply elem_of_cons in Hm.
  destruct l as [|y l].
  - destruct Hm as [->|Hm]; [|inversion Hm].
    exists [], []. simpl. now rewrite app_nil_r.
  - change (join sep (map f (x :: y :: l)))
      with (f x ++ sep ++ join sep (map f (y :: l))).
    destruct Hm as [->|Hm].
    + exists [], (sep ++ join sep (map f (y :: l))). reflexivity.
    + destruct (IH Hm) as (b & a & Hj). rewrite Hj.
      exists (f x ++ sep ++ b), a. now rewrite <- !app_assoc.
Qed.

Lemma memory_header_length : 0 < length memory_header.
Proof. unfold memory_header. rewrite !length_app. simpl. lia. Qed.

(** X12: the system message is the persona prompt alone exactly when
    nothing was retrieved; otherwise the persona prompt comes first and
    every retrieved memory [m] appears after it as ["- m"]. *)
Theorem memory_block_only_when_retrieved E retrieved :
  (full_system E retrieved = system_prompt E <-> retrieved = []) /\
  system_prompt E `prefix_of` full_system E retrieved /\
  (forall m, m ∈ retrieved ->
     exists before after,
       full_system E retrieved
         = system_prompt E ++ before ++ lit "- " ++ m ++ after).
Proof.
  split; [|split].
  - split; [|now intros ->].
    destruct retrieved as [|x r]; [reflexivity|]. unfold full_system.
    intros H. apply (f_equal length) in H.
    rewrite !length_app in H. pose proof memory_header_length. lia.
  - destruct retrieved as [|x r]; unfold full_system.
    + reflexivity.
    + now apply prefix_app_r.
  - intros m Hm. destruct retrieved as [|x r]; [inversion Hm|].
    unfold full_system.
    destruct (join_contains [nl] (fun m => lit "- " ++ m) (x :: r) m Hm)
      as (b & a & Hj).
    rewrite Hj. exists (memory_header ++ b), a.
    now rewrite <- !app_assoc.
Qed.

Lemma memory_block_only_when_retrieved_witness :
  exists before after,
    full_system DemoStores.E0 [DemoStores.tea_upper; DemoStores.mochi]
      = system_prompt DemoStores.E0 ++ before ++ lit "- " ++ DemoStores.mochi ++ after.
Proof.
  apply (proj2 (proj2 (memory_block_only_when_retrieved DemoStores.E0
                         [DemoStores.tea_upper; DemoStores.mochi]))).
  apply elem_of_cons. right. apply elem_of_cons. now left.
Defined.

(** ** [agent/graph.py] and [chat.py]: one round *)

Lemma retrieve_memories_log E st w :
  add_calls (snd (retrieve_memories E st w)) = add_calls w.
Proof.
  unfold retrieve_memories. destruct (is_empty _); [reflexivity|].
  unfold bind, lift_result, ret.
  pose proof (_get_memory_log E w) as Hl.
  destruct (_get_memory E w) as [[mem|e] w1]; simpl in Hl; [|exact Hl].
  destruct (search E mem _ _); exact Hl.
Qed.

Lemma agent_invoke_raise_log E st w e w' :
  agent_invoke E st w = (Raise e, w') -> add_calls w' = add_calls w.
Proof.
  unfold agent_invoke, bind. intros H.
  pose proof (retrieve_memories_log E st w) as Hl.
  destruct (retrieve_memories E st w) as [[s1|e1] w1]; simpl in Hl.
  - destruct (llm_invoke E (prompt_messages E s1)) as [r|e2] eqn:Hr.
    + rewrite (generate_response_ok E s1 w1 r Hr) in H.
      match type of H with context [extract_memory E ?s ?w0] =>
        destruct (extract_memory_result E s w0) as [[w2 H2]|[H2 _]] end;
        rewrite H2 in H; [discriminate|].
      inversion H; subst. exact Hl.
    + rewrite (generate_response_raise E s1 w1 e2 Hr) in H.
      inversion H; subst. exact Hl.
  - inversion H; subst. exact Hl.
Qed.

(** X13: a round of the chat loop that ends with an exception (from
    retrieval, from the chat model, or from the extraction model call) has
    made no call of [add_memory] and recorded no reply: the state the loop
    keeps is the old state plus the user line, the flag as it was.  That
    includes the round in which a reply was generated and the extraction
    model call then raised: the round ends with [UnboundLocalError] and the
    reply is lost. *)
Theorem failed_round_records_no_reply E user_input st w :
  (forall e st' w',
     chat_turn E user_input st w = (Raise e, st', w') ->
     st' = with_user_line st user_input /\
     last (messages st') = Some (HumanMessage user_input) /\
     should_extract_memory st' = should_extract_memory st /\
     add_calls w' = add_calls w) /\
  (forall s1 w1 r h a e,
     retrieve_memories E (with_user_line st user_input) w = (Ok s1, w1) ->
     llm_invoke E (prompt_messages E s1) = Ok r ->
     has_exchange {| messages := messages s1 ++ [AIMessage r];
                     retrieved_memories := retrieved_memories s1;
                     should_extract_memory := true |} h a ->
     llm_invoke E (extract_prompt h a) = Raise e ->
     chat_turn E user_input st w
       = (Raise UnboundLocalError, with_user_line st user_input, w1)).
Proof.
  split.
  - intros e st' w'. unfold chat_turn. fold (with_user_line st user_input).
    destruct (agent_invoke E (with_user_line st user_input) w)
      as [[s2|e0] w0] eqn:Hrun; [discriminate|].
    intros H; inversion H; subst.
    split; [reflexivity|]. split; [apply last_snoc|]. split; [reflexivity|].
    exact (agent_invoke_raise_log E _ w e w' Hrun).
  - intros s1 w1 r h a e Hret Hr Hex He.
    unfold chat_turn. fold (with_user_line st user_input).
    unfold agent_invoke, bind. rewrite Hret.
    rewrite (generate_response_ok E s1 w1 r Hr).
    now rewrite (extract_memory_raises E _ w1 h a e Hex He).
Qed.

Lemma failed_round_records_no_reply_witness :
  chat_turn DemoExtra.E_extract_down (lit "my cat is named Mochi")
    Demo.fresh_state Demo.empty_world
  = (Raise UnboundLocalError,
     with_user_line Demo.fresh_state (lit "my cat is named Mochi"),
     DemoTurns.built_world) /\
  last (messages (with_user_line Demo.fresh_state (lit "my cat is named Mochi")))
    = Some (HumanMessage (lit "my cat is named Mochi")) /\
  add_calls DemoTurns.built_world = add_calls Demo.empty_world.
Proof.
  assert (Hrun : chat_turn DemoExtra.E_extract_down (lit "my cat is named Mochi")
                   Demo.fresh_state Demo.empty_world
                 = (Raise UnboundLocalError,
                    with_user_line Demo.fresh_state (lit "my cat is named Mochi"),
                    DemoTurns.built_world)).
  { apply (proj2 (failed_round_records_no_reply DemoExtra.E_extract_down
                    (lit "my cat is named Mochi") Demo.fresh_state
                    Demo.empty_world)
             {| messages := [HumanMessage (lit "my cat is named Mochi")];
                retrieved_memories := [];
                should_extract_memory := false |}
             DemoTurns.built_world (lit "aww what breed")
             (lit "my cat is named Mochi") (lit "aww what breed")
             GenerationFailed).
    - vm_compute; reflexivity.
    - vm_compute; reflexivity.
    - repeat split; vm_compute; reflexivity.
    - vm_compute; reflexivity. }
  split; [exact Hrun|].
  destruct (proj1 (failed_round_records_no_reply DemoExtra.E_extract_down
                     (lit "my cat is named Mochi") Demo.fresh_state
                     Demo.empty_world)
              UnboundLocalError _ _ Hrun) as (_ & Hlast & _ & Hlog).
  split; [exact Hlast|exact Hlog].
Defined.

(** X14: a round of the chat loop that ends without exception always
    prints a reply: the transcript has grown by exactly the user line and
    that reply, the reply is what the chat model answered to the assembled
    prompt, and the flag is cleared. *)
Theorem successful_round_appends_exchange E user_input st w out st' w' :
  chat_turn E user_input st w = (Ok out, st', w') ->
  exists r s1 w1,
    out = Some r /\
    messages st' = messages st ++ [HumanMessage user_input; AIMessage r] /\
    should_extract_memory st' = false /\
    retrieve_memories E (with_user_line st user_input) w = (Ok s1, w1) /\
    llm_invoke E (prompt_messages E s1) = Ok r /\
    retrieved_memories st' = retrieved_memories s1.
Proof.
  unfold chat_turn. fold (with_user_line st user_input).
  destruct (agent_invoke E (with_user_line st user_input) w) as [[s2|e0] w0] eqn:Hrun;
    [|discriminate].
  unfold agent_invoke, bind in Hrun.
  destruct (retrieve_memories E (with_user_line st user_input) w)
    as [[s1|e1] w1] eqn:Hret; [|discriminate].
  destruct (retrieve_memories_messages E _ w s1 w1 Hret) as [Hm _].
  cbn [with_user_line messages] in Hm.
  destruct (llm_invoke E (prompt_messages E s1)) as [r|e2] eqn:Hr.
  - rewrite (generate_response_ok E s1 w1 r Hr) in Hrun.
    pose proof (extract_memory_ok_inv E _ w1 s2 w0 Hrun) as H2.
    cbn [messages retrieved_memories should_extract_memory] in H2.
    subst s2.
    cbn [messages retrieved_memories should_extract_memory].
    rewrite last_snoc.
    intros H; inversion H; subst; clear H.
    exists r, s1, w1.
    cbn [messages retrieved_memories should_extract_memory].
    rewrite Hm, <- app_assoc.
    repeat split; first [reflexivity | assumption].
  - rewrite (generate_response_raise E s1 w1 e2 Hr) in Hrun. discriminate.
Qed.

Lemma successful_round_appends_exchange_witness :
  exists r s1 w1,
    Some (lit "aww what breed") = Some r /\
    messages {| messages := [HumanMessage (lit "my cat is named Mochi");
                             AIMessage (lit "aww what breed")];
                retrieved_memories := [];
                should_extract_memory := false |}
      = messages Demo.fresh_state
          ++ [HumanMessage (lit "my cat is named Mochi"); AIMessage r] /\
    false = false /\
    retrieve_memories DemoTurns.E_mixed
      (with_user_line Demo.fresh_state (lit "my cat is named Mochi"))
      Demo.empty_world = (Ok s1, w1) /\
    llm_invoke DemoTurns.E_mixed (prompt_messages DemoTurns.E_mixed s1) = Ok r /\
    [] = retrieved_memories s1.
Proof.
  apply (successful_round_appends_exchange DemoTurns.E_mixed
           (lit "my cat is named Mochi") Demo.fresh_state Demo.empty_world
           (Some (lit "aww what breed"))
           {| messages := [HumanMessage (lit "my cat is named Mochi");
                           AIMessage (lit "aww what breed")];
              retrieved_memories := [];
              should_extract_memory := false |}
           {| disk := DemoStores.mochi_disk;
              _long_term_memory := Some DemoStores.mochi_store;
              add_calls := [DemoStores.mochi] |}).
  vm_compute; reflexivity.
Defined.

(** ** [agent/graph.py]: extraction *)

(** X15: extraction runs at most once per generated reply: running
    [extract_memory] again on the state and world it returned changes
    neither, and asks neither the model nor the memory. *)
Theorem extraction_runs_once E st w st1 w1 :
  extract_memory E st w = (Ok st1, w1) ->
  extract_memory E st1 w1 = (Ok st1, w1).
Proof.
  intros H. rewrite (extract_memory_ok_inv E st w st1 w1 H). reflexivity.
Qed.

Lemma extraction_runs_once_witness :
  extract_memory DemoTurns.E_mixed
    {| messages := messages DemoTurns.mochi_exchange;
       retrieved_memories := [];
       should_extract_memory := false |}
    {| disk := DemoStores.mochi_disk;
       _long_term_memory := Some DemoStores.mochi_store;
       add_calls := [DemoStores.mochi] |}
  = (Ok {| messages := messages DemoTurns.mochi_exchange;
           retrieved_memories := [];
           should_extract_memory := false |},
     {| disk := DemoStores.mochi_disk;
        _long_term_memory := Some DemoStores.mochi_store;
        add_calls := [DemoStores.mochi] |}).
Proof.
  apply (extraction_runs_once DemoTurns.E_mixed DemoTurns.mochi_exchange
           Demo.empty_world).
  vm_compute; reflexivity.
Defined.

(** X16: on a transcript that ends with a user line and a reply, both
    non-empty, extraction looks at exactly that pair, and after a reply was
    generated it gets past its early returns. *)
Theorem extraction_reads_latest_exchange pre h a retrieved :
  h <> [] -> a <> [] ->
  last_exchange (rev (pre ++ [HumanMessage h; AIMessage a])) [] [] = (h, a) /\
  has_exchange {| messages := pre ++ [HumanMessage h; AIMessage a];
                  retrieved_memories := retrieved;
                  should_extract_memory := true |} h a.
Proof.
  intros Hh Ha.
  assert (Hex : last_exchange (rev (pre ++ [HumanMessage h; AIMessage a])) [] []
                = (h, a)).
  { rewrite rev_app_distr. simpl.
    destruct h as [|c h]; [congruence|]. destruct a as [|c' a]; [congruence|].
    reflexivity. }
  split; [exact Hex|].
  unfold has_exchange; simpl. split; [reflexivity|].
  split; [rewrite length_app; simpl; lia|]. split; [exact Hex|].
  destruct h; [congruence|]. destruct a; [congruence|]. now split.
Qed.

Lemma extraction_reads_latest_exchange_witness :
  last_exchange (rev ([] ++ [HumanMessage (lit "my cat is named Mochi");
                             AIMessage (lit "aww what breed")])) [] []
    = (lit "my cat is named Mochi", lit "aww what breed") /\
  has_exchange {| messages := [] ++ [HumanMessage (lit "my cat is named Mochi");
                                     AIMessage (lit "aww what breed")];
                  retrieved_memories := [];
                  should_extract_memory := true |}
    (lit "my cat is named Mochi") (lit "aww what breed").
Proof.
  apply (extraction_reads_latest_exchange [] (lit "my cat is named Mochi")
           (lit "aww what breed") []); vm_compute; discriminate.
Defined.

(** X17: when the latest reply is the empty string, the loop of
    [extract_memory] does not stop at it: it pairs the latest user line with
    the reply of the round before. *)
Theorem extraction_pairs_stale_reply pre h1 a1 h2 :
  h2 <> [] -> a1 <> [] ->
  last_exchange
    (rev (pre ++ [HumanMessage h1; AIMessage a1; HumanMessage h2; AIMessage []]))
    [] []
  = (h2, a1).
Proof.
  intros Hh Ha. rewrite rev_app_distr. simpl.
  destruct h2 as [|c h2]; [congruence|]. destruct a1 as [|c' a1]; [congruence|].
  reflexivity.
Qed.

Lemma extraction_pairs_stale_reply_witness :
  last_exchange
    (rev ([] ++ [HumanMessage (lit "hello"); AIMessage (lit "66");
                 HumanMessage (lit "my cat is named Mochi"); AIMessage []]))
    [] []
  = (lit "my cat is named Mochi", lit "66").
Proof.
  apply (extraction_pairs_stale_reply [] (lit "hello") (lit "66")
           (lit "my cat is named Mochi")); vm_compute; discriminate.
Defined.

(** X18: when one [add_memory] call of the extraction loop raises, the
    exception is swallowed and the round goes on, but the loop has stopped:
    the facts accepted before the failing one were added and saved, the
    failing one and every fact after it were not, and no later fact was
    tried. *)
Theorem extraction_stops_at_failed_add E st w h a content facts mem w1 pre s post e :
  has_exchange st h a ->
  llm_invoke E (extract_prompt h a) = Ok content ->
  json_loads E (unfence (strip content)) = Some (JList facts) ->
  _get_memory E w = (Ok mem, w1) ->
  omap accepted facts = pre ++ s :: post ->
  Forall (fun t => is_ok (embed E t) = true) pre ->
  embed E s = Raise e ->
  exists st' w' mem',
    extract_memory E st w = (Ok st', w') /\
    add_calls w' = add_calls w ++ pre ++ [s] /\
    texts (records mem') = texts (records mem) ++ pre /\
    (pre <> [] ->
       _long_term_memory w' = Some mem' /\
       disk w' !! index_path mem = Some (IndexDir (records mem'))).
Proof.
  intros Hex Hc Hj Hm Hsplit Hpre Hs.
  exact (extract_memory_stops E st w h a content facts mem w1 pre s post e
           Hex Hc Hj Hm Hsplit Hpre Hs).
Qed.

Lemma extraction_stops_at_failed_add_witness :
  exists st' w' mem',
    extract_memory DemoExtra.E_three DemoTurns.mochi_exchange Demo.empty_world
      = (Ok st', w') /\
    add_calls w'
      = add_calls Demo.empty_world
          ++ [lit "user likes tea"] ++ [lit "user has a cat named Mochi"] /\
    texts (records mem')
      = texts (records {| index_path := lit "raymond_memory_index";
                          vectorstore := None |})
          ++ [lit "user likes tea"].
Proof.
  destruct (extraction_stops_at_failed_add DemoExtra.E_three
              DemoTurns.mochi_exchange Demo.empty_world
              (lit "my cat is named Mochi") (lit "aww what breed")
              DemoExtra.json_three
              [ JStr (lit "user likes tea");
                JStr (lit "user has a cat named Mochi");
                JStr (lit "user likes coffee") ]
              {| index_path := lit "raymond_memory_index"; vectorstore := None |}
              DemoTurns.built_world
              [lit "user likes tea"] (lit "user has a cat named Mochi")
              [lit "user likes coffee"] EmbeddingUnavailable)
    as (st' & w' & mem' & Hrun & Hlog & Htexts & _).
  - repeat split; vm_compute; reflexivity.
  - vm_compute; reflexivity.
  - vm_compute; reflexivity.
  - vm_compute; reflexivity.
  - vm_compute; reflexivity.
  - vm_compute. repeat constructor.
  - vm_compute; reflexivity.
  - exists st', w', mem'. split; [exact Hrun|]. split; [exact Hlog|exact Htexts].
Defined.

(** *** Fences the stripping does not undo *)

Lemma find_after_nl_none s : nl ∉ s -> find_after [nl] s = None.
Proof.
  induction s as [|c s IH]; intros Hnl; [reflexivity|].
  apply not_elem_of_cons in Hnl. destruct Hnl as [Hc Hs].
  cbn [find_after startswith].
  destruct (N.eqb_spec nl c) as [Heq|_]; [congruence|].
  cbn [andb]. now apply IH.
Qed.

Lemma fence_has_no_nl : nl ∉ fence.
Proof.
  unfold fence, nl, backtick. intros Hin.
  rewrite !elem_of_cons in Hin.
  destruct Hin as [H|[H|[H|H]]]; try discriminate. inversion H.
Qed.

(** X19: the fence is undone only when the opening fence has a line of its
    own.  An answer fenced on a single line keeps its opening fence: only
    the closing one is cut off, so what reaches the JSON parser still starts
    with the backticks.  An answer whose fence is never closed loses the
    opening line only. *)
Theorem fence_needs_its_own_line body info :
  (nl ∉ body -> unfence (fence ++ body ++ fence) = strip (fence ++ body)) /\
  (nl ∉ info -> rfind_before fence body = None ->
   unfence (fence ++ info ++ [nl] ++ body) = strip body).
Proof.
  split.
  - intros Hnl. unfold unfence. rewrite startswith_app.
    unfold split1_last. rewrite find_after_nl_none.
    + unfold rsplit1_first. rewrite app_assoc. now rewrite rfind_before_fence.
    + intros Hin. rewrite !elem_of_app in Hin.
      pose proof fence_has_no_nl. tauto.
  - intros Hnl Hnone. unfold unfence. rewrite startswith_app.
    unfold split1_last. rewrite app_assoc.
    change ([nl] ++ body) with (nl :: body).
    rewrite find_after_nl.
    + unfold rsplit1_first. now rewrite Hnone.
    + intros Hin. apply elem_of_app in Hin.
      pose proof fence_has_no_nl. tauto.
Qed.

Lemma fence_needs_its_own_line_witness :
  unfence (fence ++ Demo.json_coffee ++ fence) = strip (fence ++ Demo.json_coffee) /\
  json_loads DemoTurns.E_coffee (unfence (fence ++ Demo.json_coffee ++ fence)) = None.
Proof.
  split.
  - apply (proj1 (fence_needs_its_own_line Demo.json_coffee [])).
    intros Hin. vm_compute in Hin.
    repeat (apply elem_of_cons in Hin; destruct Hin as [Hin|Hin];
            [discriminate|]).
    inversion Hin.
  - vm_compute; reflexivity.
Defined.

(** ** [agent/config.py] and [agent/llm.py] *)

Lemma DEFAULT_MODELS_other p :
  p <> lit "anthropic" -> p <> lit "openai" -> p <> lit "ollama" ->
  DEFAULT_MODELS !! p = None.
Proof.
  intros H1 H2 H3. unfold DEFAULT_MODELS.
  rewrite lookup_insert_ne by congruence.
  rewrite lookup_insert_ne by congruence.
  apply lookup_singleton_ne. congruence.
Qed.

(** X20: [create_llm] raises [ValueError] exactly for the providers that
    have no entry in [DEFAULT_MODELS]; so for every chat model it builds,
    the model name is [LLM_MODEL] when that is set and the provider's own
    default otherwise: the fallback name inside [get_model_name] is never
    the name of a model that gets built. *)
Theorem create_llm_providers_match_defaults C :
  (DEFAULT_MODELS !! LLM_PROVIDER C = None <->
   create_llm C = inr (lit "不支持的 LLM provider: " ++ LLM_PROVIDER C)) /\
  (forall m, create_llm C = inl m ->
     model_of m = get_model_name C /\
     (LLM_MODEL C <> [] -> model_of m = LLM_MODEL C) /\
     (LLM_MODEL C = [] -> DEFAULT_MODELS !! LLM_PROVIDER C = Some (model_of m))).
Proof.
  unfold create_llm.
  destruct (decide (LLM_PROVIDER C = lit "anthropic")) as [Ha|Ha];
    [|destruct (decide (LLM_PROVIDER C = lit "openai")) as [Ho|Ho];
      [|destruct (decide (LLM_PROVIDER C = lit "ollama")) as [Hl|Hl]]].
  4: { split.
       - split; [reflexivity|]. intros _. now apply DEFAULT_MODELS_other.
       - intros m H. discriminate. }
  all: split;
    [ split; [|discriminate]; intros H;
      first [rewrite Ha in H | rewrite Ho in H | rewrite Hl in H];
      vm_compute in H; discriminate
    | intros m H; inversion H; subst m; cbn [model_of];
      split; [reflexivity|]; unfold get_model_name;
      split;
      [ intros Hm; destruct (LLM_MODEL C); [congruence|reflexivity]
      | intros Hm; rewrite Hm; cbn [is_empty];
        first [rewrite Ha | rewrite Ho | rewrite Hl];
        vm_compute; reflexivity ] ].
Qed.

Lemma create_llm_providers_match_defaults_witness :
  model_of (ChatOllama (lit "raymond") 0.8 8192%N)
    = get_model_name DemoExtra.ollama_custom /\
  (LLM_MODEL DemoExtra.ollama_custom <> [] ->
   model_of (ChatOllama (lit "raymond") 0.8 8192%N)
     = LLM_MODEL DemoExtra.ollama_custom) /\
  (LLM_MODEL DemoExtra.ollama_custom = [] ->
   DEFAULT_MODELS !! LLM_PROVIDER DemoExtra.ollama_custom
     = Some (model_of (ChatOllama (lit "raymond") 0.8 8192%N))).
Proof.
  apply (proj2 (create_llm_providers_match_defaults DemoExtra.ollama_custom)
           (ChatOllama (lit "raymond") 0.8 8192%N)).
  vm_compute; reflexivity.
Defined.

(** ** [agent/prompt.py] *)

Lemma fewshot_turn_spec turn :
  Forall2 (fun tn m =>
             (turn_role tn = lit "human" /\ m = HumanMessage (turn_content tn)) \/
             (turn_role tn = lit "assistant" /\ m = AIMessage (turn_content tn)))
          (if kept_role turn then [turn] else []) (fewshot_turn turn) /\
  Forall (fun m => is_system m = false) (fewshot_turn turn).
Proof.
  unfold fewshot_turn, kept_role.
  destruct (decide (turn_role turn = lit "human")) as [Hh|Hh].
  - rewrite bool_decide_eq_true_2 by exact Hh. simpl.
    split; [|repeat constructor].
    constructor; [|constructor]. left. now split.
  - rewrite (bool_decide_eq_false_2 _ Hh).
    destruct (decide (turn_role turn = lit "assistant")) as [Ha|Ha].
    + rewrite bool_decide_eq_true_2 by exact Ha. simpl.
      split; [|repeat constructor].
      constructor; [|constructor]. right. now split.
    + rewrite (bool_decide_eq_false_2 _ Ha). simpl.
      split; constructor.
Qed.

Lemma fewshot_conversation_spec conversation :
  Forall2 (fun tn m =>
             (turn_role tn = lit "human" /\ m = HumanMessage (turn_content tn)) \/
             (turn_role tn = lit "assistant" /\ m = AIMessage (turn_content tn)))
          (List.filter kept_role conversation)
          (concat (map fewshot_turn conversation)) /\
  Forall (fun m => is_system m = false) (concat (map fewshot_turn conversation)).
Proof.
  induction conversation as [|turn conv [IH1 IH2]]; simpl.
  - split; constructor.
  - destruct (fewshot_turn_spec turn) as [Hr Hs]. split.
    + destruct (kept_role turn).
      * change (turn :: List.filter kept_role conv)
          with ([turn] ++ List.filter kept_role conv).
        now apply Forall2_app.
      * change (List.filter kept_role conv)
          with ([] ++ List.filter kept_role conv).
        now apply Forall2_app.
    + apply Forall_app. now split.
Qed.

Lemma fewshot_spec examples :
  Forall2 (fun tn m =>
             (turn_role tn = lit "human" /\ m = HumanMessage (turn_content tn)) \/
             (turn_role tn = lit "assistant" /\ m = AIMessage (turn_content tn)))
          (List.filter kept_role (concat examples))
          (build_fewshot_messages examples) /\
  Forall (fun m => is_system m = false) (build_fewshot_messages examples).
Proof.
  unfold build_fewshot_messages.
  induction examples as [|conv examples [IH1 IH2]]; simpl.
  - split; constructor.
  - destruct (fewshot_conversation_spec conv) as [Hr Hs]. split.
    + rewrite List.filter_app. now apply Forall2_app.
    + apply Forall_app. now split.
Qed.

(** X21: the few-shot messages are the turns of all examples in file
    order, one message per turn whose role is ["human"] or ["assistant"]: a
    human turn becomes a [HumanMessage] and an assistant turn an
    [AIMessage], each with the content of its turn; a turn with any other
    role is dropped without error, so no [SystemMessage] ever comes from the
    few-shot file. *)
Theorem fewshot_keeps_human_and_assistant_turns examples :
  Forall2 (fun tn m =>
             (turn_role tn = lit "human" /\ m = HumanMessage (turn_content tn)) \/
             (turn_role tn = lit "assistant" /\ m = AIMessage (turn_content tn)))
          (List.filter kept_role (concat examples))
          (build_fewshot_messages examples) /\
  length (build_fewshot_messages examples)
    = length (List.filter kept_role (concat examples)) /\
  Forall (fun m => is_system m = false) (build_fewshot_messages examples).
Proof.
  destruct (fewshot_spec examples) as [Hr Hs].
  split; [exact Hr|]. split; [|exact Hs].
  symmetry. exact (Forall2_length _ _ _ Hr).
Qed.

Lemma filter_no_system l :
  Forall (fun m => is_system m = false) l -> List.filter is_system l = [].
Proof.
  induction 1 as [|m l Hm _ IH]; simpl; [reflexivity|]. now rewrite Hm.
Qed.

(** X22: when the few-shot messages come from [build_fewshot_messages] and
    the transcript holds no [SystemMessage], the prompt sent to the chat
    model is the system message, then the few-shot messages, then the window
    of the transcript, and the system message at its head is the only
    [SystemMessage] in it. *)
Theorem prompt_has_one_system_message E st examples :
  fewshot E = build_fewshot_messages examples ->
  Forall (fun m => is_system m = false) (messages st) ->
  prompt_messages E st
    = SystemMessage (full_system E (retrieved_memories st))
        :: build_fewshot_messages examples ++ window E (messages st) /\
  List.filter is_system (prompt_messages E st)
    = [SystemMessage (full_system E (retrieved_memories st))] /\
  Forall (fun m => is_system m = false)
         (build_fewshot_messages examples ++ window E (messages st)).
Proof.
  intros Hfew Hmsgs.
  assert (Hrest : Forall (fun m => is_system m = false)
                         (build_fewshot_messages examples ++ window E (messages st))).
  { apply Forall_app. split; [apply fewshot_spec|].
    assert (Hsuf : window E (messages st) `suffix_of` messages st).
    { unfold window. destruct (_ <? _)%Z; [apply slice_from_suffix|reflexivity]. }
    destruct Hsuf as [k Hk]. rewrite Hk in Hmsgs.
    now apply Forall_app in Hmsgs. }
  unfold prompt_messages. rewrite Hfew.
  split; [reflexivity|]. split; [|exact Hrest].
  simpl. now rewrite (filter_no_system _ Hrest).
Qed.

Lemma prompt_has_one_system_message_witness :
  prompt_messages DemoExtra.E_fewshot
    {| messages := DemoTurns.three_turns;
       retrieved_memories := [];
       should_extract_memory := false |}
    = SystemMessage (full_system DemoExtra.E_fewshot [])
        :: build_fewshot_messages DemoExtra.fewshot_file
           ++ window DemoExtra.E_fewshot DemoTurns.three_turns /\
  List.filter is_system
    (prompt_messages DemoExtra.E_fewshot
       {| messages := DemoTurns.three_turns;
          retrieved_memories := [];
          should_extract_memory := false |})
    = [SystemMessage (full_system DemoExtra.E_fewshot [])] /\
  build_fewshot_messages DemoExtra.fewshot_file
    = [HumanMessage (lit "你在干嘛"); AIMessage (lit "打游戏哈")].
Proof.
  destruct (prompt_has_one_system_message DemoExtra.E_fewshot
              {| messages := DemoTurns.three_turns;
                 retrieved_memories := [];
                 should_extract_memory := false |} DemoExtra.fewshot_file)
    as (Hp & Hf & _).
  - reflexivity.
  - repeat constructor.
  - split; [exact Hp|]. split; [exact Hf|]. vm_compute; reflexivity.
Defined.
